(** * llmf: templates, record sets and the completions mapping engine

    A shallow embedding of
      - [llmf/mappings/completions/base.py]   (templates, definitions, [map_corpus]),
      - [llmf/corpora/schematized.py]         (records and record sets),
      - [llmf/mappings/completions/openai/gpt.py] (the ChatGPT mapping's [map]),
    followed by the properties of the specification that concern them.

    Python strings are lists of characters; a character is a code point
    below 256 ([ascii]).  Dictionaries are finite maps ([gmap]); a Python
    exception is a value of type [exception] carried by [Raise]. *)

From Stdlib Require Import Ascii String List Bool Arith Lia.
From stdpp Require Import base option list gmap strings.

Set Default Proof Using "Type".
Local Open Scope list_scope.

(* ===================================================================== *)
(** * Python values                                                       *)
(* ===================================================================== *)

Abbreviation str := (list ascii).

(** A string literal of the source. *)
Definition py_str (s : string) : str := list_ascii_of_string s.

(** Dictionary keys.  The code stores [parts[i].key], an [Optional[str]],
    as a key of the dictionary that [parse] returns, so keys are optional
    strings; a [str] key [k] is [Some k]. *)
Abbreviation pykey := (option str).
Abbreviation pydict := (gmap (option str) str).

Inductive exception :=
| ValueError (msg : str)
| KeyError (k : pykey)
| IndexError
| FileNotFoundError (path : str)
| CollaboratorError (info : str).

Inductive result (A : Type) :=
| Ok (a : A)
| Raise (e : exception).
Arguments Ok {A} a.
Arguments Raise {A} e.

(** Sequencing of statements that may raise: [x ← r; k] runs [k] on the
    value of [r], or propagates the exception [r] raised. *)
#[global] Instance result_ret : MRet result := fun _ a => Ok a.
#[global] Instance result_bind : MBind result := fun _ _ k r =>
  match r with
  | Ok a => k a
  | Raise e => Raise e
  end.

(** A comprehension [[f x for x in xs]] whose body may raise: the first
    exception aborts it. *)
Fixpoint for_each {A B} (f : A -> result B) (xs : list A) : result (list B) :=
  match xs with
  | [] => Ok []
  | x :: xs' => y ← f x; ys ← for_each f xs'; Ok (y :: ys)
  end.

Definition is_Ok {A} (r : result A) : bool :=
  match r with Ok _ => true | Raise _ => false end.

Module Py.

Fixpoint str_eqb (a b : str) : bool :=
  match a, b with
  | [], [] => true
  | x :: a', y :: b' => Ascii.eqb x y && str_eqb a' b'
  | _, _ => false
  end.

(** [c.isspace()] for a code point below 256. *)
Definition isspace (c : ascii) : bool :=
  let n := nat_of_ascii c in
  ((9 <=? n) && (n <=? 13)) || ((28 <=? n) && (n <=? 32))
  || (n =? 133) || (n =? 160).

Fixpoint drop_while (p : ascii -> bool) (s : str) : str :=
  match s with
  | [] => []
  | c :: rest => if p c then drop_while p rest else s
  end.

Definition lstrip_by (p : ascii -> bool) (s : str) : str := drop_while p s.
Definition rstrip_by (p : ascii -> bool) (s : str) : str :=
  rev (drop_while p (rev s)).

(** [s.strip()] *)
Definition strip (s : str) : str := rstrip_by isspace (lstrip_by isspace s).

(** [s.strip(chars)] *)
Definition strip_chars (chars : str) (s : str) : str :=
  let p c := existsb (Ascii.eqb c) chars in
  rstrip_by p (lstrip_by p s).

(** [s.startswith(prefix)] *)
Fixpoint startswith (s prefix : str) {struct prefix} : bool :=
  match prefix, s with
  | [], _ => true
  | p :: prefix', c :: s' => Ascii.eqb c p && startswith s' prefix'
  | _ :: _, [] => false
  end.

(** [s.find(sub)]: the lowest index where [sub] occurs, if any.
    [sub in s] is [is_Some (find s sub)]; where that holds,
    [s.index(sub)] is the index found. *)
Fixpoint find (s sub : str) : option nat :=
  if startswith s sub then Some 0
  else match s with
       | [] => None
       | _ :: s' => S <$> find s' sub
       end.

(** The scan of [s.replace(old, new)] for a non-empty [old]:
    non-overlapping occurrences, leftmost first.  [skip] counts the
    characters of the occurrence just replaced that are still ahead. *)
Fixpoint replace_scan (old new : str) (skip : nat) (s : str) : str :=
  match s with
  | [] => []
  | c :: rest =>
      match skip with
      | S k => replace_scan old new k rest
      | O => if startswith s old
             then new ++ replace_scan old new (length old - 1) rest
             else c :: replace_scan old new 0 rest
      end
  end.

(** [s.replace(old, new)].  With an empty [old] Python puts [new]
    before every character and at the end. *)
Definition replace (s old new : str) : str :=
  match old with
  | [] => new ++ flat_map (fun c => c :: new) s
  | _ :: _ => replace_scan old new 0 s
  end.

(** [str(b)] for a bool and [str(x)] for an optional string. *)
Definition str_of_bool (b : bool) : str :=
  if b then py_str "True" else py_str "False".
Definition str_of_optional (o : option str) : str :=
  match o with
  | None => py_str "None"
  | Some s => s
  end.

Definition open_brace : ascii := "{"%char.
Definition close_brace : ascii := "}"%char.
Definition is_brace (c : ascii) : bool :=
  Ascii.eqb c open_brace || Ascii.eqb c close_brace.

End Py.

(* ===================================================================== *)
(** * The two regular expressions of the template loader                  *)
(* ===================================================================== *)

Module Re.

(** Characters other than the closing brace, then a closing brace, at the
    head of [s]: the characters before the first closing
    brace, when there is one. *)
Fixpoint until_close (s : str) : option str :=
  match s with
  | [] => None
  | c :: rest =>
      if Ascii.eqb c Py.close_brace then Some []
      else (cons c) <$> until_close rest
  end.

(** The pattern of [_parse_template_keys] (an opening brace, a group of
    characters other than the closing brace, a closing brace) matched at
    the head of [s]; the result is group 1. *)
Definition match_key (s : str) : option str :=
  match s with
  | [] => None
  | c :: rest => if Ascii.eqb c Py.open_brace then until_close rest else None
  end.

(** The second alternative matched at the head of [s]: the longest run
    of characters that are not braces, which must not be empty. *)
Fixpoint text_run (s : str) : str :=
  match s with
  | [] => []
  | c :: rest => if Py.is_brace c then [] else c :: text_run rest
  end.

Definition match_text (s : str) : option str :=
  match text_run s with
  | [] => None
  | c :: run => Some (c :: run)
  end.

(** The whole text of a match of that pattern whose group 1 is [body]. *)
Definition braced (body : str) : str :=
  Py.open_brace :: body ++ [Py.close_brace].

(** [re.findall] with the pattern of [_parse_template_keys]: group 1 of
    the non-overlapping matches, leftmost first.  The scan tries a match at each position and
    resumes after it; [skip] counts the characters of the last match that
    are still ahead. *)
Fixpoint findall_keys_scan (skip : nat) (s : str) : list str :=
  match s with
  | [] => []
  | _ :: rest =>
      match skip with
      | S k => findall_keys_scan k rest
      | O =>
          match match_key s with
          | Some body => body :: findall_keys_scan (length (braced body) - 1) rest
          | None => findall_keys_scan 0 rest
          end
      end
  end.

Definition findall_keys (s : str) : list str := findall_keys_scan 0 s.

(** [pattern_match.groups()] for the pattern of
    [_parse_template_into_parts], which has two alternatives: group 1, a
    braced key as above, or group 2, a non-empty run of characters that
    are not braces.  The pair holds the texts of group 1 and group 2,
    [None] for the group that did not take part in the match. *)
Definition groups : Type := option str * option str.

(** [pattern.finditer(s)] for that pattern: at each position the first
    alternative is tried, then the second; a position where
    neither matches (a brace that opens or closes nothing) is passed
    over. *)
Fixpoint finditer_parts_scan (skip : nat) (s : str) : list groups :=
  match s with
  | [] => []
  | _ :: rest =>
      match skip with
      | S k => finditer_parts_scan k rest
      | O =>
          match match_key s with
          | Some body =>
              (Some (braced body), None)
                :: finditer_parts_scan (length (braced body) - 1) rest
          | None =>
              match match_text s with
              | Some run =>
                  (None, Some run) :: finditer_parts_scan (length run - 1) rest
              | None => finditer_parts_scan 0 rest
              end
          end
      end
  end.

Definition finditer_parts (s : str) : list groups := finditer_parts_scan 0 s.

End Re.

(* ===================================================================== *)
(** * Templates ([llmf/mappings/completions/base.py])                     *)
(* ===================================================================== *)

Record TextCompletionsMappingTemplatePart := {
  part_raw : str;
  part_key : option str
}.

Record TextCompletionsMappingTemplate := {
  raw : str;
  parts : list TextCompletionsMappingTemplatePart;
  keys : list str
}.

Module Template.

(** ["{" + key + "}"] *)
Definition bracketed (key : str) : str := py_str "{" ++ key ++ py_str "}".

Definition missing_key_message (key t_raw : str) : str :=
  py_str "Key " ++ key ++ py_str " missing from dictionary for template '"
    ++ t_raw ++ py_str "'".

(** The loop of [fill] over the keys still to be substituted. *)
Fixpoint fill_loop (t_raw : str) (ks : list str) (values : pydict)
    (filled_template : str) : result str :=
  match ks with
  | [] => Ok filled_template
  | key :: ks' =>
      match values !! Some key with
      | None => Raise (ValueError (missing_key_message key t_raw))
      | Some v =>
          fill_loop t_raw ks' values
            (Py.replace filled_template (bracketed key) v)
      end
  end.

Definition fill (self : TextCompletionsMappingTemplate) (values : pydict)
    : result str :=
  fill_loop (raw self) (keys self) values (raw self).

Definition expected_at_start_message (lit text : str) : str :=
  py_str "Expected '" ++ lit ++ py_str "' at start of text '" ++ text
    ++ py_str "'.".

Definition expected_in_text_message (lit cur_text : str) : str :=
  py_str "Expected '" ++ lit ++ py_str "' in text '" ++ cur_text
    ++ py_str "'.".

(** The [while] loop of [parse].  [ps] is [parts[cur_key_part_index:]]:
    its head is the part at [cur_key_part_index], the next one the part at
    [cur_key_part_index + 1], and the index advances by two. *)
Fixpoint parse_loop (ps : list TextCompletionsMappingTemplatePart)
    (cur_text : str) (parsed_keys_to_values : pydict) : result pydict :=
  match ps with
  | [] => Ok parsed_keys_to_values
  | [p] => Ok (<[part_key p := cur_text]> parsed_keys_to_values)
  | p :: q :: ps' =>
      match Py.find cur_text (part_raw q) with
      | None =>
          Raise (ValueError (expected_in_text_message (part_raw q) cur_text))
      | Some next_non_key_char_index =>
          parse_loop ps'
            (drop (next_non_key_char_index + length (part_raw q)) cur_text)
            (<[part_key p := take next_non_key_char_index cur_text]>
               parsed_keys_to_values)
      end
  end.

Definition parse (self : TextCompletionsMappingTemplate) (text : str)
    : result pydict :=
  let cur_text := Py.strip text in
  match parts self with
  | [] => Raise IndexError
  | part0 :: _ =>
      match part_key part0 with
      | None =>
          if negb (Py.startswith text (part_raw part0))
          then Raise (ValueError
                        (expected_at_start_message (part_raw part0) text))
          else parse_loop (drop 1 (parts self))
                 (drop (length (part_raw part0)) cur_text) ∅
      | Some _ => parse_loop (drop 0 (parts self)) cur_text ∅
      end
  end.

(** The loop of [_parse_template_keys]: first occurrences, in order.
    [template_key_set] holds the keys seen so far. *)
Fixpoint unique_keys_loop (template_keys : list str)
    (template_key_set : gset str) (unique_keys : list str) : list str :=
  match template_keys with
  | [] => unique_keys
  | key :: rest =>
      if decide (key ∈ template_key_set)
      then unique_keys_loop rest template_key_set unique_keys
      else unique_keys_loop rest ({[key]} ∪ template_key_set)
             (unique_keys ++ [key])
  end.

Definition _parse_template_keys (t_raw : str) : list str :=
  unique_keys_loop (Re.findall_keys t_raw) ∅ [].

Definition alternate_message : str :=
  py_str "Keys and non-keys must alternate within a template.".
Definition empty_message : str := py_str "Template cannot be empty.".

(** The part appended for one match, if any: a key match that is not
    empty, else a text match that is not empty. *)
Definition part_of_match (m : Re.groups)
    : option TextCompletionsMappingTemplatePart :=
  match m with
  | (Some (c :: key_match), _) =>
      Some {| part_raw := c :: key_match;
              part_key := Some (Py.strip_chars (py_str "{}") (c :: key_match)) |}
  | (_, Some (c :: text_match)) =>
      Some {| part_raw := c :: text_match; part_key := None |}
  | _ => None
  end.

(** [len(template_parts) > 1 and (template_parts[-1].key is None) ==
    (template_parts[-2].key is None)] *)
Definition last_two_same_kind
    (template_parts : list TextCompletionsMappingTemplatePart) : bool :=
  match rev template_parts with
  | p1 :: p2 :: _ =>
      Bool.eqb (bool_decide (part_key p1 = None))
               (bool_decide (part_key p2 = None))
  | _ => false
  end.

(** The [for] loop of [_parse_template_into_parts] over the matches. *)
Fixpoint parts_loop (matches : list Re.groups)
    (template_parts : list TextCompletionsMappingTemplatePart)
    : result (list TextCompletionsMappingTemplatePart) :=
  match matches with
  | [] => Ok template_parts
  | pattern_match :: rest =>
      let template_parts' :=
        match part_of_match pattern_match with
        | Some p => template_parts ++ [p]
        | None => template_parts
        end in
      if last_two_same_kind template_parts'
      then Raise (ValueError alternate_message)
      else parts_loop rest template_parts'
  end.

Definition _parse_template_into_parts (t_raw : str)
    : result (list TextCompletionsMappingTemplatePart) :=
  template_parts ← parts_loop (Re.finditer_parts t_raw) [];
  if length template_parts =? 0
  then Raise (ValueError empty_message)
  else Ok template_parts.

Definition load (t_raw : str) : result TextCompletionsMappingTemplate :=
  let t_raw := Py.strip t_raw in
  parts ← _parse_template_into_parts t_raw;
  Ok {| raw := t_raw; parts := parts; keys := _parse_template_keys t_raw |}.

End Template.

(* ===================================================================== *)
(** * Records and record sets ([llmf/corpora/schematized.py])             *)
(* ===================================================================== *)

Record SchematizedTextCorpusExample := {
  _field_values : pydict
}.

Record SchematizedTextCorpus := {
  fields : list str;
  _examples : list SchematizedTextCorpusExample
}.

(** A dictionary display or comprehension: the items are stored in
    order, a later item replacing an earlier one with the same key. *)
Definition dict_of_items (items : list (pykey * str)) : pydict :=
  foldl (fun d kv => <[kv.1 := kv.2]> d) ∅ items.

(** [set(xs)] for a tuple of strings. *)
Definition set_of (xs : list str) : gset str := list_to_set xs.

(** [enumerate(xs)] *)
Definition enumerate {A} (xs : list A) : list (nat * A) := imap pair xs.

Module Example.

(** [self[field]] *)
Definition getitem (self : SchematizedTextCorpusExample) (field : str)
    : result str :=
  match _field_values self !! Some field with
  | Some v => Ok v
  | None => Raise (KeyError (Some field))
  end.

(** [self + other], that is [dict(self._field_values,
    **other._field_values)]: the entries of [self], then those of
    [other], which replace the entries of [self] with the same key. *)
Definition add (self other : SchematizedTextCorpusExample)
    : SchematizedTextCorpusExample :=
  {| _field_values := _field_values other ∪ _field_values self |}.

End Example.

Module Corpus.

Definition len (self : SchematizedTextCorpus) : nat := length (_examples self).

(** [self[index]] for an integer index that is not negative. *)
Definition getitem (self : SchematizedTextCorpus) (index : nat)
    : result SchematizedTextCorpusExample :=
  match _examples self !! index with
  | Some e => Ok e
  | None => Raise IndexError
  end.

Definition common_fields_message : str :=
  py_str "Cannot join corpora that have fields in common.".
Definition row_count_message : str :=
  py_str "Joined corpora must contain the same number of rows.".

Definition join (self other : SchematizedTextCorpus)
    : result SchematizedTextCorpus :=
  if 0 <? size (set_of (fields self) ∩ set_of (fields other))
  then Raise (ValueError common_fields_message)
  else if negb (len self =? len other)
  then Raise (ValueError row_count_message)
  else
    examples ← for_each
                 (fun '(index, example) =>
                    other_example ← getitem other index;
                    Ok (Example.add example other_example))
                 (enumerate (_examples self));
    Ok {| fields := fields self ++ fields other; _examples := examples |}.

End Corpus.

(* ===================================================================== *)
(** * Mapping definitions ([llmf/mappings/completions/base.py])           *)
(* ===================================================================== *)

Record TextMappingExample := {
  inputs : pydict;
  outputs : pydict
}.

Record TextCompletionsMappingDefinition := {
  guidelines : str;
  input_template : TextCompletionsMappingTemplate;
  output_template : TextCompletionsMappingTemplate;
  examples : list TextMappingExample;
  source_dir_path : option str
}.

(** The files of a mapping directory that [load_from_directory] looks at.
    A text file is its content, [None] when the file does not exist.  An
    examples file is the record set that [SchematizedTextCorpus.
    load_from_file] reads from it, [None] when the file does not exist;
    the two file encodings themselves are not modelled. *)
Record Directory := {
  dir_path : str;
  guidelines_txt : option str;
  input_template_txt : option str;
  output_template_txt : option str;
  examples_yaml : option SchematizedTextCorpus;
  examples_tsv : option SchematizedTextCorpus
}.

Module MappingDefinition.

(** [os.path.join(a, b)] on a POSIX system. *)
Definition path_join (a b : str) : str :=
  if Py.startswith b (py_str "/") then b
  else match rev a with
       | [] => b
       | c :: _ => if Ascii.eqb c "/"%char then a ++ b
                   else a ++ py_str "/" ++ b
       end.

(** [open(path).read()] *)
Definition read_file (path : str) (content : option str) : result str :=
  match content with
  | Some text => Ok text
  | None => Raise (FileNotFoundError path)
  end.

(** [{key: corpus_example[key] for key in ks}] *)
Definition select_fields (corpus_example : SchematizedTextCorpusExample)
    (ks : list str) : result pydict :=
  items ← for_each
            (fun key => v ← Example.getitem corpus_example key; Ok (Some key, v))
            ks;
  Ok (dict_of_items items).

(** The argument is the record set read from the examples file. *)
Definition _load_examples_from_file (file : SchematizedTextCorpus)
    (input_keys output_keys : list str) : result (list TextMappingExample) :=
  for_each
    (fun corpus_example =>
       ins ← select_fields corpus_example input_keys;
       outs ← select_fields corpus_example output_keys;
       Ok {| inputs := ins; outputs := outs |})
    (_examples file).

Definition key_overlap_message : str :=
  py_str "Template key occurs in both input and output templates".

Definition no_examples_message (d : str) : str :=
  py_str "TextCompletionsMapping requires examples.yaml or examples.tsv in given directory '"
    ++ d ++ py_str "'".

Definition load_from_directory (dir : Directory)
    : result TextCompletionsMappingDefinition :=
  guidelines_text ← read_file (path_join (dir_path dir) (py_str "guidelines.txt"))
                      (guidelines_txt dir);
  let guidelines := Py.strip guidelines_text in
  input_text ← read_file (path_join (dir_path dir) (py_str "input_template.txt"))
                 (input_template_txt dir);
  input_template ← Template.load input_text;
  output_text ← read_file (path_join (dir_path dir) (py_str "output_template.txt"))
                  (output_template_txt dir);
  output_template ← Template.load output_text;
  if 1 <? size (set_of (keys input_template) ∩ set_of (keys output_template))
  then Raise (ValueError key_overlap_message)
  else
    examples ←
      match examples_yaml dir with
      | Some file =>
          _load_examples_from_file file (keys input_template)
            (keys output_template)
      | None =>
          match examples_tsv dir with
          | Some file =>
              _load_examples_from_file file (keys input_template)
                (keys output_template)
          | None =>
              Raise (FileNotFoundError (no_examples_message (dir_path dir)))
          end
      end;
    Ok {| guidelines := guidelines;
          input_template := input_template;
          output_template := output_template;
          examples := examples;
          source_dir_path := Some (dir_path dir) |}.

End MappingDefinition.

(* ===================================================================== *)
(** * The mapping engine                                                  *)
(* ===================================================================== *)

Record TextCompletionsMappingOutput := {
  out_raw : str;
  parsed : pydict;
  success : bool;
  error_message : option str
}.

(** Modelled from the spec: [llmf/completions/openai/parameters.py], which
    declares [ChatGPTRole], is not among the sources; the roles of a
    conversation turn are system, user and assistant. *)
Inductive ChatGPTRole := SYSTEM | USER | ASSISTANT.

(** [ChatGPTPrompt]: the tuple of its messages. *)
Definition ChatGPTPrompt : Type := list (ChatGPTRole * str).

(** The completion collaborator, [gpt_client.run]: from the prompt to the
    completion text, or an exception.  The service may answer the same
    prompt differently each time, so the answer also depends on the number
    of the call. *)
Definition ChatGPTTextCompletionsClient : Type :=
  nat -> ChatGPTPrompt -> result str.

Record ChatGPTTextCompletionsMapping := {
  definition : TextCompletionsMappingDefinition;
  gpt_client : ChatGPTTextCompletionsClient;
  prompt_prefix : ChatGPTPrompt
}.

Module Mapping.

(** [prompt + (role, text)] for a single message. *)
Definition prompt_add (prompt : ChatGPTPrompt) (message : ChatGPTRole * str)
    : ChatGPTPrompt :=
  prompt ++ [message].

(** The one expression of the logged objects that may raise:
    [f"{str(self._prompt_prefix[0][1][:64])}..."]. *)
Definition logged_guidelines (prefix : ChatGPTPrompt) : result str :=
  match prefix with
  | [] => Raise IndexError
  | message :: _ => Ok (take 64 message.2 ++ py_str "...")
  end.

(** [ChatGPTTextCompletionsMapping.map].  [call] is the number of the
    call made to the completion collaborator.  The two [logging.info]
    calls only evaluate the logged object; what the log sink does with it
    is not modelled. *)
Definition map (self : ChatGPTTextCompletionsMapping) (call : nat)
    (input : pydict) (parse_error_default : option str)
    : result TextCompletionsMappingOutput :=
  user_input_prompt_message ←
    Template.fill (input_template (definition self)) input;
  let gpt_prompt :=
    prompt_add (prompt_prefix self) (USER, user_input_prompt_message) in
  completion ← gpt_client self call gpt_prompt;
  _ ← logged_guidelines (prompt_prefix self);
  match Template.parse (output_template (definition self)) completion with
  | Ok parsed_fields =>
      Ok {| out_raw := completion;
            parsed := parsed_fields;
            success := true;
            error_message := None |}
  | Raise (ValueError err_message) =>
      _ ← logged_guidelines (prompt_prefix self);
      match parse_error_default with
      | None => Raise (ValueError err_message)
      | Some default =>
          Ok {| out_raw := completion;
                parsed := dict_of_items
                            (List.map (fun key => (Some key, default))
                               (keys (output_template (definition self))));
                success := false;
                error_message := Some err_message |}
      end
  | Raise err => Raise err
  end.

(** [map_batch]: the records in order, one call of the collaborator for
    each, numbered from [first_call]. *)
Definition map_batch (self : ChatGPTTextCompletionsMapping) (first_call : nat)
    (inputs : list SchematizedTextCorpusExample)
    (parse_error_default : option str)
    : result (list TextCompletionsMappingOutput) :=
  for_each
    (fun '(index, input) =>
       map self (first_call + index) (_field_values input) parse_error_default)
    (enumerate inputs).

Definition debug_field_message : str :=
  py_str "Cannot map corpus because debug field included in input/output fields.".

(** The record that [map_corpus] makes of one outcome: the element of its
    list comprehension. *)
Definition output_example (include_debug_fields : bool)
    (error_message_field success_field raw_completion_field : str)
    (output : TextCompletionsMappingOutput) : SchematizedTextCorpusExample :=
  if include_debug_fields
  then Example.add
         {| _field_values := parsed output |}
         {| _field_values :=
              dict_of_items
                [ (Some success_field, Py.str_of_bool (success output));
                  (Some error_message_field,
                    Py.str_of_optional (error_message output));
                  (Some raw_completion_field, out_raw output) ] |}
  else {| _field_values := parsed output |}.

Definition map_corpus (self : ChatGPTTextCompletionsMapping) (first_call : nat)
    (corpus : SchematizedTextCorpus) (parse_error_default : option str)
    (include_inputs_in_output include_debug_fields : bool)
    (error_message_field success_field raw_completion_field : str)
    : result SchematizedTextCorpus :=
  let extra_fields : gset str :=
    {[ error_message_field; success_field; raw_completion_field ]} in
  if include_debug_fields
     && ((0 <? size (extra_fields
                       ∩ set_of (keys (input_template (definition self)))))
         || (0 <? size (extra_fields
                          ∩ set_of (keys (output_template (definition self))))))
  then Raise (ValueError debug_field_message)
  else
    let output_fields :=
      if include_debug_fields
      then keys (output_template (definition self))
             ++ [success_field; error_message_field; raw_completion_field]
      else keys (output_template (definition self)) in
    outputs ← map_batch self first_call (_examples corpus) parse_error_default;
    let output_corpus :=
      {| fields := output_fields;
         _examples :=
           List.map
             (output_example include_debug_fields error_message_field
                success_field raw_completion_field)
             outputs |} in
    if include_inputs_in_output
    then Corpus.join corpus output_corpus
    else Ok output_corpus.

(** [_load_gpt_prompt_prefix] *)
Definition _load_gpt_prompt_prefix (d : TextCompletionsMappingDefinition)
    : result ChatGPTPrompt :=
  turns ← for_each
            (fun example =>
               user_turn ← Template.fill (input_template d) (inputs example);
               assistant_turn ← Template.fill (output_template d) (outputs example);
               Ok [ (USER, user_turn); (ASSISTANT, assistant_turn) ])
            (examples d);
  Ok ((SYSTEM, guidelines d) :: concat turns).

(** [ChatGPTTextCompletionsMapping.load_from_directory] *)
Definition load_from_directory (client : ChatGPTTextCompletionsClient)
    (dir : Directory) : result ChatGPTTextCompletionsMapping :=
  mapping_definition ← MappingDefinition.load_from_directory dir;
  prefix ← _load_gpt_prompt_prefix mapping_definition;
  Ok {| definition := mapping_definition;
        gpt_client := client;
        prompt_prefix := prefix |}.

End Mapping.

(* ===================================================================== *)
(** * Notions used to state the properties                                *)
(* ===================================================================== *)

Definition is_placeholder (p : TextCompletionsMappingTemplatePart) : bool :=
  match part_key p with
  | Some _ => true
  | None => false
  end.

(** No two neighbours of the sequence are of the same kind. *)
Fixpoint alternates (ps : list TextCompletionsMappingTemplatePart) : bool :=
  match ps with
  | p :: ((q :: _) as rest) =>
      negb (Bool.eqb (is_placeholder p) (is_placeholder q)) && alternates rest
  | _ => true
  end.

(** The names of the placeholder parts, in order, with repetitions. *)
Definition placeholder_names (ps : list TextCompletionsMappingTemplatePart)
    : list str :=
  omap part_key ps.

(** The parts that the matches of the tokenizer give rise to, before any
    check. *)
Definition tokens (t_raw : str) : list TextCompletionsMappingTemplatePart :=
  omap Template.part_of_match (Re.finditer_parts t_raw).

(** [s] has neither an opening nor a closing brace. *)
Definition plain (s : str) : bool := forallb (fun c => negb (Py.is_brace c)) s.

(** [s] has no opening brace. *)
Definition no_opening_brace (s : str) : bool :=
  forallb (fun c => negb (Ascii.eqb c Py.open_brace)) s.

(** [sub in s] *)
Definition contains (s sub : str) : bool :=
  match Py.find s sub with
  | Some _ => true
  | None => false
  end.

(** Every brace of the template belongs to a placeholder [{name}] whose
    name has no brace: the raw string is the concatenation of the parts,
    a literal part has no brace, a placeholder part is its name between
    braces, and [keys] has the names of the placeholder parts. *)
Definition well_braced_part (p : TextCompletionsMappingTemplatePart) : bool :=
  match part_key p with
  | None => plain (part_raw p)
  | Some k => plain k && bool_decide (part_raw p = Template.bracketed k)
  end.

Definition well_braced (t : TextCompletionsMappingTemplate) : bool :=
  bool_decide (raw t = concat (part_raw <$> parts t))
  && forallb well_braced_part (parts t)
  && bool_decide (set_of (keys t) = set_of (placeholder_names (parts t))).

(** The value that [values] gives to [key]; the empty string stands for a
    key that has none. *)
Definition value_of (values : pydict) (key : str) : str :=
  default [] (values !! Some key).

(** The template written out part by part, each placeholder part replaced
    by the value of its key. *)
Definition render (values : pydict)
    (ps : list TextCompletionsMappingTemplatePart) : str :=
  concat ((fun p => match part_key p with
                    | None => part_raw p
                    | Some k => value_of values k
                    end) <$> ps).




(** [values] restricted to the keys [ks]. *)
Definition restrict_to_keys (ks : list str) (values : pydict) : pydict :=
  filter (fun kv => kv.1 ∈ (Some <$> ks)) values.

(** Each placeholder that a literal follows has a value after which the
    literal is found first: the value followed by the literal has no
    earlier occurrence of the literal. *)
Fixpoint separators_found (values : pydict)
    (ps : list TextCompletionsMappingTemplatePart) : bool :=
  match ps with
  | p :: ((q :: _) as rest) =>
      match part_key p with
      | Some k =>
          bool_decide (Py.find (value_of values k ++ part_raw q) (part_raw q)
                       = Some (length (value_of values k)))
      | None => true
      end && separators_found values rest
  | _ => true
  end.

(** A template being filled: the text between placeholders and the
    placeholders still open. *)
Inductive segment :=
| Chunk (s : str)
| Hole (k : str).

Definition segment_text (g : segment) : str :=
  match g with
  | Chunk s => s
  | Hole k => Template.bracketed k
  end.

Definition flatten (gs : list segment) : str := concat (segment_text <$> gs).

Definition segment_of_part (p : TextCompletionsMappingTemplatePart) : segment :=
  match part_key p with
  | None => Chunk (part_raw p)
  | Some k => Hole k
  end.

(** The placeholder [k] given the value [v]. *)
Definition plug (k v : str) (g : segment) : segment :=
  match g with
  | Chunk s => Chunk s
  | Hole k' => if decide (k' = k) then Chunk v else Hole k'
  end.

Definition segment_ok (g : segment) : bool :=
  match g with
  | Chunk s => no_opening_brace s
  | Hole k => plain k
  end.

(** [values] has an entry for each of the keys [ks]. *)
Definition provides (values : pydict) (ks : list str) : bool :=
  forallb (fun k => bool_decide (is_Some (values !! Some k))) ks.


(** No value of a key contains the text of a part of the template (a
    literal separator, or a placeholder as it is written) or the bracketed
    form of a key. *)
Definition no_value_contains_part_or_key (t : TextCompletionsMappingTemplate)
    (values : pydict) : bool :=
  forallb
    (fun k =>
       forallb (fun p => negb (contains (value_of values k) (part_raw p)))
         (parts t)
       && forallb
            (fun k' => negb (contains (value_of values k) (Template.bracketed k')))
            (keys t))
    (keys t).

(** The dictionary in which [parse] has stored the value of each
    placeholder part of [ps]. *)
Definition parsed_from (values : pydict)
    (ps : list TextCompletionsMappingTemplatePart) (d : pydict) : pydict :=
  foldl (fun d p => match part_key p with
                    | Some k => <[Some k := value_of values k]> d
                    | None => d
                    end) d ps.

(** The sequence is empty or starts with a placeholder. *)
Definition starts_with_placeholder
    (ps : list TextCompletionsMappingTemplatePart) : bool :=
  match ps with
  | [] => true
  | p :: _ => is_placeholder p
  end.

(** Each of the keys [ks] has a value, and the value has no opening
    brace. *)
Definition provides_without_opening_brace (values : pydict) (ks : list str)
    : bool :=
  forallb (fun k => match values !! Some k with
                    | Some v => no_opening_brace v
                    | None => false
                    end) ks.

(** The round trip as the specification words it, failing for the
    template loaded from [t_raw] and the values [values]: the template has
    a placeholder, every key has a value, no value contains a literal
    separator or a bracketed key, and yet parsing the filled template does
    not return the values of the keys. *)
Definition roundtrip_fails (t_raw : str) (values : pydict) : Prop :=
  exists t,
    Template.load t_raw = Ok t
    /\ keys t <> []
    /\ provides values (keys t) = true
    /\ no_value_contains_part_or_key t values = true
    /\ (Template.fill t values ≫= Template.parse t)
       <> Ok (restrict_to_keys (keys t) values).

(** The defaults of [map_corpus] for the names of the debug fields. *)
Definition default_error_message_field : str := py_str "Error Message".
Definition default_success_field : str := py_str "Completion Success".
Definition default_raw_completion_field : str := py_str "Completion".

(* ===================================================================== *)
(** * A worked example                                                    *)
(* ===================================================================== *)

(** A mapping directory with the two given templates and one example
    row for the fields [a], [b] and [c]. *)
Definition demo_directory (input_text output_text : string) : Directory :=
  {| dir_path := py_str "prompts/demo";
     guidelines_txt := Some (py_str "Answer briefly.");
     input_template_txt := Some (py_str input_text);
     output_template_txt := Some (py_str output_text);
     examples_yaml := None;
     examples_tsv :=
       Some {| fields := [py_str "a"; py_str "b"; py_str "c"];
               _examples :=
                 [ {| _field_values :=
                        dict_of_items [ (Some (py_str "a"), py_str "1");
                                        (Some (py_str "b"), py_str "2");
                                        (Some (py_str "c"), py_str "3") ] |} ] |} |}.

(** A template with a repeated placeholder, as [load] returns it, and
    values for it. *)
Definition greeting_template : TextCompletionsMappingTemplate :=
  {| raw := py_str "Hello, {name}! Bye, {name}.";
     parts := [ {| part_raw := py_str "Hello, "; part_key := None |};
                {| part_raw := py_str "{name}"; part_key := Some (py_str "name") |};
                {| part_raw := py_str "! Bye, "; part_key := None |};
                {| part_raw := py_str "{name}"; part_key := Some (py_str "name") |};
                {| part_raw := py_str "."; part_key := None |} ];
     keys := [py_str "name"] |}.

Definition greeting_values : pydict :=
  dict_of_items [ (Some (py_str "name"), py_str "World");
                  (Some (py_str "mood"), py_str "fine") ].

(** A template of two placeholders as [load] returns it. *)
Definition pair_template : TextCompletionsMappingTemplate :=
  {| raw := py_str "{city}, {country}";
     parts := [ {| part_raw := py_str "{city}"; part_key := Some (py_str "city") |};
                {| part_raw := py_str ", "; part_key := None |};
                {| part_raw := py_str "{country}";
                   part_key := Some (py_str "country") |} ];
     keys := [py_str "city"; py_str "country"] |}.

Definition pair_values : pydict :=
  dict_of_items [ (Some (py_str "city"), py_str "Oslo");
                  (Some (py_str "country"), py_str "Norway");
                  (Some (py_str "note"), py_str "n/a") ].

(** A collaborator that answers every prompt with the same text. *)
Definition constant_client (answer : string) : ChatGPTTextCompletionsClient :=
  fun _ _ => Ok (py_str answer).

(** A mapping from a question to an answer that is expected after the
    literal [A: ]. *)
Definition demo_mapping (answer : string) : ChatGPTTextCompletionsMapping :=
  {| definition :=
       {| guidelines := py_str "Answer briefly.";
          input_template :=
            {| raw := py_str "Q: {question}";
               parts := [ {| part_raw := py_str "Q: "; part_key := None |};
                          {| part_raw := py_str "{question}";
                             part_key := Some (py_str "question") |} ];
               keys := [py_str "question"] |};
          output_template :=
            {| raw := py_str "A: {answer}";
               parts := [ {| part_raw := py_str "A: "; part_key := None |};
                          {| part_raw := py_str "{answer}";
                             part_key := Some (py_str "answer") |} ];
               keys := [py_str "answer"] |};
          examples := [];
          source_dir_path := None |};
     gpt_client := constant_client answer;
     prompt_prefix := [ (SYSTEM, py_str "Answer briefly.") ] |}.

(** The first record of a record set, an empty record if it has none. *)
Definition Corpus_first (c : SchematizedTextCorpus) : SchematizedTextCorpusExample :=
  default {| _field_values := ∅ |} (head (_examples c)).

Definition demo_corpus : SchematizedTextCorpus :=
  {| fields := [py_str "question"];
     _examples :=
       [ {| _field_values :=
              dict_of_items [ (Some (py_str "question"), py_str "2+2?") ] |} ] |}.

(** Record sets to join with [demo_corpus]: one with an answer for its
    record, one with the same field and no record. *)
Definition demo_answers : SchematizedTextCorpus :=
  {| fields := [py_str "answer"];
     _examples :=
       [ {| _field_values :=
              dict_of_items [ (Some (py_str "answer"), py_str "4") ] |} ] |}.



(* ===================================================================== *)
(** * Further notions                                                     *)
(* ===================================================================== *)

(** Each distinct element once, in the order of first occurrence. *)
Fixpoint first_occurrences (xs : list str) : list str :=
  match xs with
  | [] => []
  | x :: rest => x :: filter (fun y => y <> x) (first_occurrences rest)
  end.

(** Group 1 of a match of the tokenizer without its two braces, when the
    match is a key match. *)
Definition key_body (m : Re.groups) : option str :=
  match m with
  | (Some (_ :: inner), _) => Some (removelast inner)
  | _ => None
  end.

(** The invariant of a record set: the field names are distinct and every
    record has exactly these fields. *)
Definition schema_ok (c : SchematizedTextCorpus) : Prop :=
  NoDup (fields c)
  /\ forall r, r ∈ _examples c ->
       dom (_field_values r) = list_to_set (Some <$> fields c).

(** What a match of the tokenizer looks like: a key match is a body
    without closing brace between two braces, a text match is a run without
    braces that is not empty. *)
Definition match_shape (m : Re.groups) : Prop :=
  match m with
  | (Some key_match, None) =>
      exists body, key_match = Re.braced body /\ (Py.close_brace ∉ body)
  | (None, Some text_match) => text_match <> [] /\ plain text_match = true
  | _ => False
  end.

(** What a part of a loaded template looks like. *)
Definition part_shape (p : TextCompletionsMappingTemplatePart) : Prop :=
  match part_key p with
  | None => part_raw p <> [] /\ plain (part_raw p) = true
  | Some k =>
      exists body,
        part_raw p = Re.braced body
        /\ (Py.close_brace ∉ body)
        /\ k = Py.strip_chars (py_str "{}") (Re.braced body)
  end.

(** A third record set, to join with [demo_corpus] and [demo_answers]. *)
Definition demo_notes : SchematizedTextCorpus :=
  {| fields := [py_str "note"];
     _examples :=
       [ {| _field_values :=
              dict_of_items [ (Some (py_str "note"), py_str "easy") ] |} ] |}.

(** The example that [_load_examples_from_file] makes of a record that has
    all the keys. *)
Definition example_of_record (input_keys output_keys : list str)
    (r : SchematizedTextCorpusExample) : TextMappingExample :=
  {| inputs := restrict_to_keys input_keys (_field_values r);
     outputs := restrict_to_keys output_keys (_field_values r) |}.

(** A record set that already has the field of the answers. *)
Definition demo_answered : SchematizedTextCorpus :=
  {| fields := [py_str "question"; py_str "answer"];
     _examples :=
       [ {| _field_values :=
              dict_of_items [ (Some (py_str "question"), py_str "2+2?");
                              (Some (py_str "answer"), py_str "?") ] |} ] |}.

(* ===================================================================== *)
(** * Sequencing                                                          *)
(* ===================================================================== *)

Lemma bind_Ok {A B} (r : result A) (k : A -> result B) (b : B) :
  r ≫= k = Ok b <-> exists a, r = Ok a /\ k a = Ok b.
Proof.
  destruct r as [a|e]; simpl; split.
  - intros H. exists a. split; [reflexivity | exact H].
  - intros (a' & Ha & Hk). injection Ha as ->. exact Hk.
  - discriminate.
  - intros (a' & Ha & _). discriminate.
Qed.

Lemma bind_Raise {A B} (r : result A) (k : A -> result B) (e : exception) :
  r ≫= k = Raise e <-> r = Raise e \/ exists a, r = Ok a /\ k a = Raise e.
Proof.
  destruct r as [a|e']; simpl; split.
  - intros H. right. exists a. split; [reflexivity | exact H].
  - intros [H | (a' & Ha & Hk)]; [discriminate | ]. injection Ha as ->. exact Hk.
  - intros [= ->]. left. reflexivity.
  - intros [[= ->] | (a' & Ha & _)]; [reflexivity | discriminate].
Qed.

Lemma for_each_Ok_length {A B} (f : A -> result B) (xs : list A) (ys : list B) :
  for_each f xs = Ok ys -> length ys = length xs.
Proof.
  revert ys. induction xs as [|x xs IH]; intros ys; simpl.
  - intros [= <-]. reflexivity.
  - destruct (f x) as [y|e]; simpl; [ | discriminate ].
    destruct (for_each f xs) as [ys'|e]; simpl; [ | discriminate ].
    intros [= <-]. simpl. f_equal. apply IH. reflexivity.
Qed.

Lemma for_each_Ok_lookup {A B} (f : A -> result B) (xs : list A) (ys : list B)
    (i : nat) (x : A) :
  for_each f xs = Ok ys -> xs !! i = Some x ->
  exists y, ys !! i = Some y /\ f x = Ok y.
Proof.
  revert ys i. induction xs as [|x0 xs IH]; intros ys i; simpl.
  - intros _ Hx. discriminate.
  - destruct (f x0) as [y0|e] eqn:Hf; simpl; [ | discriminate ].
    destruct (for_each f xs) as [ys'|e]; simpl; [ | discriminate ].
    intros [= <-]. destruct i as [|i]; simpl.
    + intros [= ->]. exists y0. split; [reflexivity | exact Hf].
    + intros Hx. apply (IH ys' i); [reflexivity | exact Hx].
Qed.

Lemma for_each_all_Ok {A B} (f : A -> result B) (g : A -> B) (xs : list A) :
  (forall x, x ∈ xs -> f x = Ok (g x)) -> for_each f xs = Ok (g <$> xs).
Proof.
  induction xs as [|x xs IH]; intros H; simpl; [reflexivity | ].
  rewrite (H x) by (left). simpl.
  rewrite IH; [reflexivity | ]. intros y Hy. apply H. right. exact Hy.
Qed.

Lemma for_each_Raise {A B} (f : A -> result B) (xs : list A) (e : exception) :
  for_each f xs = Raise e -> exists x, x ∈ xs /\ f x = Raise e.
Proof.
  induction xs as [|x xs IH]; simpl; [discriminate | ].
  destruct (f x) as [y|e'] eqn:Hf; simpl.
  - destruct (for_each f xs) as [ys|e'']; simpl; [discriminate | ].
    intros [= ->]. destruct IH as (x' & Hin & Hx'); [reflexivity | ].
    exists x'. split; [right; exact Hin | exact Hx'].
  - intros [= ->]. exists x. split; [left | exact Hf].
Qed.

Lemma enumerate_lookup {A} (xs : list A) (i : nat) (x : A) :
  xs !! i = Some x -> enumerate xs !! i = Some (i, x).
Proof.
  intros H. unfold enumerate. rewrite list_lookup_imap, H. reflexivity.
Qed.

Lemma enumerate_elem {A} (xs : list A) (i : nat) (x : A) :
  (i, x) ∈ enumerate xs -> xs !! i = Some x.
Proof.
  unfold enumerate. intros H. apply list_elem_of_lookup in H as [j Hj].
  rewrite list_lookup_imap in Hj.
  destruct (xs !! j) as [y|] eqn:Hy; simpl in Hj; [ | discriminate ].
  injection Hj as -> ->. exact Hy.
Qed.

(* ===================================================================== *)
(** * Records and record sets                                             *)
(* ===================================================================== *)

Lemma set_of_common (xs ys : list str) :
  0 < size (set_of xs ∩ set_of ys) <-> exists f, f ∈ xs /\ f ∈ ys.
Proof.
  unfold set_of. split.
  - intros H. apply size_pos_elem_of in H as [f Hf].
    exists f. set_solver.
  - intros (f & Hx & Hy).
    assert (Hne : (list_to_set xs ∩ list_to_set ys : gset str) ≢ ∅) by set_solver.
    apply size_non_empty_iff in Hne. lia.
Qed.


Lemma join_examples_Ok (c1 c2 : SchematizedTextCorpus) :
  Corpus.len c1 = Corpus.len c2 ->
  for_each
    (fun '(index, example) =>
       other_example ← Corpus.getitem c2 index;
       Ok (Example.add example other_example))
    (enumerate (_examples c1))
  = Ok (zip_with Example.add (_examples c1) (_examples c2)).
Proof.
  unfold Corpus.len, Corpus.getitem, enumerate.
  generalize (_examples c2) as ys. generalize (_examples c1) as xs.
  intros xs ys Hlen.
  assert (Hgen : forall n (pre : list SchematizedTextCorpusExample),
             length pre = n ->
             for_each
               (fun '(index, example) =>
                  other_example ← match (pre ++ ys) !! index with
                                  | Some e => Ok e
                                  | None => Raise IndexError
                                  end;
                  Ok (Example.add example other_example))
               (imap (fun i => pair (n + i)) xs)
             = Ok (zip_with Example.add xs ys)).
  { revert ys Hlen. induction xs as [|x xs IH]; intros ys Hlen n pre Hpre.
    - reflexivity.
    - destruct ys as [|y ys]; [discriminate | ].
      specialize (IH ys ltac:(simpl in Hlen; lia) (S n) (pre ++ [y])
                    ltac:(rewrite length_app; simpl; lia)).
      rewrite <- app_assoc in IH. change ([y] ++ ys) with (y :: ys) in IH.
      cbn [imap for_each zip_with].
      rewrite Nat.add_0_r, lookup_app_r by lia.
      rewrite Hpre, Nat.sub_diag. cbn [lookup list_lookup mbind result_bind].
      rewrite (imap_ext _ (fun i => pair (S n + i)));
        [ | intros; simpl; f_equal; lia ].
      rewrite IH. reflexivity. }
  apply (Hgen 0 [] eq_refl).
Qed.




(* ===================================================================== *)
(** * Loading a template                                                  *)
(* ===================================================================== *)

Lemma kind_test (p1 p2 : TextCompletionsMappingTemplatePart) :
  Bool.eqb (bool_decide (part_key p1 = None)) (bool_decide (part_key p2 = None))
  = Bool.eqb (is_placeholder p1) (is_placeholder p2).
Proof.
  unfold is_placeholder.
  destruct (part_key p1), (part_key p2); reflexivity.
Qed.

Lemma last_two_same_kind_snoc ps p :
  Template.last_two_same_kind (ps ++ [p])
  = match last ps with
    | Some q => Bool.eqb (is_placeholder q) (is_placeholder p)
    | None => false
    end.
Proof.
  unfold Template.last_two_same_kind. rewrite rev_app_distr. simpl.
  destruct ps as [|q0 ps0] using rev_ind; [reflexivity | ].
  rewrite rev_app_distr, last_snoc. simpl.
  rewrite kind_test.
  destruct (is_placeholder p), (is_placeholder q0); reflexivity.
Qed.

Lemma alternates_snoc ps p :
  alternates (ps ++ [p])
  = alternates ps
    && match last ps with
       | Some q => negb (Bool.eqb (is_placeholder q) (is_placeholder p))
       | None => true
       end.
Proof.
  induction ps as [|a ps IH]; [reflexivity | ].
  destruct ps as [|b ps]; simpl.
  - rewrite andb_true_r. reflexivity.
  - simpl in IH. rewrite IH, andb_assoc. reflexivity.
Qed.

Lemma alternates_last_two ps :
  alternates ps = true -> Template.last_two_same_kind ps = false.
Proof.
  destruct ps as [|p ps0] using rev_ind; [reflexivity | ].
  rewrite alternates_snoc, last_two_same_kind_snoc.
  destruct (last ps0); [ | reflexivity ].
  intros [_ H]%andb_true_iff. apply negb_true_iff. exact H.
Qed.

Lemma alternates_app_l ps qs :
  alternates (ps ++ qs) = true -> alternates ps = true.
Proof.
  revert ps. induction qs as [|q qs IH]; intros ps.
  - rewrite app_nil_r. trivial.
  - rewrite (cons_middle q ps qs), app_assoc. intros H%IH.
    rewrite alternates_snoc in H. apply andb_true_iff in H as [H _]. exact H.
Qed.

(** What the loop over the matches returns, from the parts gathered so
    far and the parts that the remaining matches give. *)
Lemma parts_loop_spec ms acc :
  alternates acc = true ->
  Template.parts_loop ms acc
  = if alternates (acc ++ omap Template.part_of_match ms)
    then Ok (acc ++ omap Template.part_of_match ms)
    else Raise (ValueError Template.alternate_message).
Proof.
  revert acc. induction ms as [|m ms IH]; intros acc Hacc.
  - simpl. rewrite app_nil_r, Hacc. reflexivity.
  - cbn [Template.parts_loop].
    assert (Hcons : omap Template.part_of_match (m :: ms)
                    = match Template.part_of_match m with
                      | Some p => p :: omap Template.part_of_match ms
                      | None => omap Template.part_of_match ms
                      end) by reflexivity.
    rewrite Hcons. clear Hcons.
    destruct (Template.part_of_match m) as [p|].
    + rewrite last_two_same_kind_snoc.
      replace (acc ++ p :: omap Template.part_of_match ms)
        with ((acc ++ [p]) ++ omap Template.part_of_match ms)
        by (rewrite <- app_assoc; reflexivity).
      destruct (alternates (acc ++ [p])) eqn:Hsnoc.
      * pose proof Hsnoc as Hsnoc'. rewrite alternates_snoc, Hacc in Hsnoc'.
        simpl in Hsnoc'.
        destruct (last acc) as [q|].
        -- apply negb_true_iff in Hsnoc'. rewrite Hsnoc'. apply IH, Hsnoc.
        -- apply IH, Hsnoc.
      * assert (Hall : alternates ((acc ++ [p]) ++ omap Template.part_of_match ms)
                         = false).
        { destruct (alternates ((acc ++ [p]) ++ _)) eqn:H; [ | reflexivity ].
          apply alternates_app_l in H. congruence. }
        rewrite Hall. rewrite alternates_snoc, Hacc in Hsnoc. simpl in Hsnoc.
        destruct (last acc) as [q|]; [ | discriminate ].
        apply negb_false_iff in Hsnoc. rewrite Hsnoc. reflexivity.
    + rewrite (alternates_last_two acc Hacc). apply IH, Hacc.
Qed.

Lemma parse_template_into_parts_spec t_raw :
  Template._parse_template_into_parts t_raw
  = if alternates (tokens t_raw)
    then match tokens t_raw with
         | [] => Raise (ValueError Template.empty_message)
         | p :: ps => Ok (p :: ps)
         end
    else Raise (ValueError Template.alternate_message).
Proof.
  unfold Template._parse_template_into_parts.
  rewrite parts_loop_spec by reflexivity. simpl. fold (tokens t_raw).
  destruct (alternates (tokens t_raw)); [ | reflexivity ].
  simpl. destruct (tokens t_raw); reflexivity.
Qed.

Lemma alternates_false_iff ps :
  alternates ps = false
  <-> exists i p q, ps !! i = Some p /\ ps !! S i = Some q
                    /\ is_placeholder p = is_placeholder q.
Proof.
  induction ps as [|a ps IH].
  - split; [discriminate | intros (i & p & q & H & _); discriminate].
  - destruct ps as [|b ps].
    + split; [discriminate | ].
      intros (i & p & q & _ & H & _). destruct i; discriminate.
    + change (alternates (a :: b :: ps))
        with (negb (Bool.eqb (is_placeholder a) (is_placeholder b))
              && alternates (b :: ps)).
      rewrite andb_false_iff, IH, negb_false_iff, Bool.eqb_true_iff. split.
      * intros [H | (i & p & q & Hp & Hq & Hk)].
        -- exists 0, a, b. repeat split; [reflexivity.. | exact H].
        -- exists (S i), p, q. repeat split; assumption.
      * intros (i & p & q & Hp & Hq & Hk). destruct i as [|i].
        -- left. simpl in Hp, Hq. congruence.
        -- right. exists i, p, q. repeat split; assumption.
Qed.

(** What [load] returns when it returns a template. *)
Lemma load_Ok_inv t_raw t :
  Template.load t_raw = Ok t ->
  raw t = Py.strip t_raw
  /\ parts t = tokens (Py.strip t_raw)
  /\ keys t = Template._parse_template_keys (Py.strip t_raw)
  /\ parts t <> []
  /\ alternates (parts t) = true.
Proof.
  unfold Template.load. rewrite parse_template_into_parts_spec.
  destruct (alternates (tokens (Py.strip t_raw))) eqn:Halt; [ | discriminate ].
  destruct (tokens (Py.strip t_raw)) as [|p ps] eqn:Htok; [discriminate | ].
  simpl. intros [= <-]. simpl. repeat split; [discriminate | exact Halt].
Qed.

(** The set that the loop of [_parse_template_keys] keeps agrees with the
    list that it builds, which stays free of duplicates. *)
Lemma unique_keys_loop_spec ks seen uniq :
  seen = set_of uniq -> NoDup uniq ->
  NoDup (Template.unique_keys_loop ks seen uniq)
  /\ forall k, k ∈ Template.unique_keys_loop ks seen uniq <-> k ∈ uniq \/ k ∈ ks.
Proof.
  revert seen uniq. induction ks as [|key ks IH]; intros seen uniq Hseen Hnd; simpl.
  - split; [exact Hnd | ]. intros k. rewrite elem_of_nil. tauto.
  - destruct (decide (key ∈ seen)) as [Hin|Hnin].
    + destruct (IH seen uniq Hseen Hnd) as [IH1 IH2]. split; [exact IH1 | ].
      intros k. rewrite IH2, elem_of_cons.
      subst seen. unfold set_of in Hin. rewrite elem_of_list_to_set in Hin.
      split; [tauto | ]. intros [H | [-> | H]]; tauto.
    + subst seen. unfold set_of in Hnin. rewrite elem_of_list_to_set in Hnin.
      destruct (IH ({[key]} ∪ set_of uniq) (uniq ++ [key])) as [IH1 IH2].
      * unfold set_of. rewrite list_to_set_app_L. simpl.
        rewrite (right_id_L ∅ (∪)). apply (comm_L (∪)).
      * apply NoDup_app. repeat split; [exact Hnd | | apply NoDup_singleton].
        intros x Hx Hx'. apply list_elem_of_singleton in Hx'. congruence.
      * split; [exact IH1 | ]. intros k.
        rewrite IH2, elem_of_app, list_elem_of_singleton, elem_of_cons. tauto.
Qed.

Lemma parse_template_keys_NoDup t_raw :
  NoDup (Template._parse_template_keys t_raw).
Proof.
  apply (unique_keys_loop_spec _ ∅ []); [reflexivity | constructor].
Qed.

(** *** C7
    [load] fails with the error for an empty template whenever the trimmed
    string gives no part at all, as the empty string does, and with the
    error for parts that do not alternate whenever two neighbouring parts
    of the tokenization are of the same kind, as in the template of two
    adjacent placeholders. *)
Theorem load_rejects_empty_and_adjacent (t_raw : str) :
  (tokens (Py.strip t_raw) = [] ->
     Template.load t_raw = Raise (ValueError Template.empty_message))
  /\ ((exists i p q,
         tokens (Py.strip t_raw) !! i = Some p
         /\ tokens (Py.strip t_raw) !! S i = Some q
         /\ is_placeholder p = is_placeholder q) ->
      Template.load t_raw = Raise (ValueError Template.alternate_message))
  /\ Template.load (py_str "") = Raise (ValueError Template.empty_message)
  /\ Template.load (py_str "{a}{b}")
     = Raise (ValueError Template.alternate_message).
Proof.
  split; [ | split; [ | split; reflexivity ] ].
  - intros Hempty. unfold Template.load.
    rewrite parse_template_into_parts_spec, Hempty. reflexivity.
  - intros Hadj. apply alternates_false_iff in Hadj. unfold Template.load.
    rewrite parse_template_into_parts_spec, Hadj. reflexivity.
Qed.

Lemma load_rejects_empty_and_adjacent_witness :
  Template.load (py_str "   ") = Raise (ValueError Template.empty_message)
  /\ Template.load (py_str "a{b}{c}")
     = Raise (ValueError Template.alternate_message).
Proof.
  split.
  - apply (proj1 (load_rejects_empty_and_adjacent (py_str "   "))).
    vm_compute. reflexivity.
  - apply (proj1 (proj2 (load_rejects_empty_and_adjacent (py_str "a{b}{c}")))).
    exists 1.
    exists {| part_raw := py_str "{b}"; part_key := Some (py_str "b") |}.
    exists {| part_raw := py_str "{c}"; part_key := Some (py_str "c") |}.
    vm_compute. repeat split; reflexivity.
Defined.

(** *** C8
    The keys of a loaded template are read off the raw string by one
    pattern and the names of its parts by another.  On the template of a
    placeholder whose name starts with an opening brace the two disagree:
    the only part is named [a], the only key is [{a]. *)
Theorem load_keys_differ_from_part_names :
  exists t,
    Template.load (py_str "{{a}") = Ok t
    /\ parts t = [ {| part_raw := py_str "{{a}"; part_key := Some (py_str "a") |} ]
    /\ placeholder_names (parts t) = [py_str "a"]
    /\ keys t = [py_str "{a"].
Proof.
  eexists. split; [vm_compute; reflexivity | ].
  repeat split; reflexivity.
Qed.

(** The first two invariants of a loaded template hold without
    exception, and its keys are free of duplicates. *)
Lemma load_parts_nonempty_alternate t_raw t :
  Template.load t_raw = Ok t ->
  parts t <> [] /\ alternates (parts t) = true /\ NoDup (keys t).
Proof.
  intros H. destruct (load_Ok_inv t_raw t H) as (_ & _ & Hkeys & Hne & Halt).
  repeat split; [exact Hne | exact Halt | ].
  rewrite Hkeys. apply parse_template_keys_NoDup.
Qed.

(* ===================================================================== *)
(** * Loading a mapping definition                                        *)
(* ===================================================================== *)

Lemma select_fields_Raise r ks e :
  MappingDefinition.select_fields r ks = Raise e -> exists k, e = KeyError k.
Proof.
  unfold MappingDefinition.select_fields. intros H.
  apply bind_Raise in H as [H | (items & _ & H)]; [ | discriminate ].
  apply for_each_Raise in H as (key & _ & H).
  unfold Example.getitem in H.
  destruct (_field_values r !! Some key); [discriminate | ].
  injection H as <-. eexists. reflexivity.
Qed.

Lemma load_examples_from_file_Raise file ks1 ks2 e :
  MappingDefinition._load_examples_from_file file ks1 ks2 = Raise e ->
  exists k, e = KeyError k.
Proof.
  unfold MappingDefinition._load_examples_from_file. intros H.
  apply for_each_Raise in H as (r & _ & H).
  apply bind_Raise in H as [H | (ins & _ & H)].
  - apply select_fields_Raise in H. exact H.
  - apply bind_Raise in H as [H | (outs & _ & H)]; [ | discriminate ].
    apply select_fields_Raise in H. exact H.
Qed.

(** *** C5
    Once the guidelines and the two templates are read, loading a
    definition raises the validation error when the two templates share
    more than one key; when they share one key or none, that error is not
    raised. *)
Theorem definition_key_overlap_check (dir : Directory)
    (guidelines_text input_text output_text : str)
    (input_t output_t : TextCompletionsMappingTemplate) :
  guidelines_txt dir = Some guidelines_text ->
  input_template_txt dir = Some input_text ->
  output_template_txt dir = Some output_text ->
  Template.load input_text = Ok input_t ->
  Template.load output_text = Ok output_t ->
  (1 < size (set_of (keys input_t) ∩ set_of (keys output_t)) ->
     MappingDefinition.load_from_directory dir
     = Raise (ValueError MappingDefinition.key_overlap_message))
  /\ (size (set_of (keys input_t) ∩ set_of (keys output_t)) <= 1 ->
      MappingDefinition.load_from_directory dir
      <> Raise (ValueError MappingDefinition.key_overlap_message)).
Proof.
  intros Hg Hi Ho Hti Hto. unfold MappingDefinition.load_from_directory.
  rewrite Hg, Hi, Ho. simpl. rewrite Hti. simpl. rewrite Hto. simpl.
  destruct (1 <? size (set_of (keys input_t) ∩ set_of (keys output_t))) eqn:Hlt.
  - apply Nat.ltb_lt in Hlt. split; [reflexivity | lia].
  - apply Nat.ltb_ge in Hlt. split; [lia | ]. intros _ H.
    apply bind_Raise in H as [H | (exs & _ & H)]; [ | discriminate ].
    destruct (examples_yaml dir) as [file|].
    + apply load_examples_from_file_Raise in H as [k H]. discriminate.
    + destruct (examples_tsv dir) as [file|]; [ | discriminate ].
      apply load_examples_from_file_Raise in H as [k H]. discriminate.
Qed.

Lemma definition_key_overlap_check_witness :
  MappingDefinition.load_from_directory (demo_directory "{a} {b}" "{a};{b}")
  = Raise (ValueError MappingDefinition.key_overlap_message)
  /\ MappingDefinition.load_from_directory (demo_directory "{a} {b}" "{a};{c}")
     <> Raise (ValueError MappingDefinition.key_overlap_message).
Proof.
  destruct (Template.load (py_str "{a} {b}")) as [ti|] eqn:Hti;
    [ | vm_compute in Hti; discriminate ].
  destruct (Template.load (py_str "{a};{b}")) as [to2|] eqn:Hto2;
    [ | vm_compute in Hto2; discriminate ].
  destruct (Template.load (py_str "{a};{c}")) as [to1|] eqn:Hto1;
    [ | vm_compute in Hto1; discriminate ].
  split.
  - apply (proj1 (definition_key_overlap_check
                    (demo_directory "{a} {b}" "{a};{b}") _ _ _ ti to2
                    eq_refl eq_refl eq_refl Hti Hto2)).
    vm_compute in Hti, Hto2. injection Hti as <-. injection Hto2 as <-.
    vm_compute. lia.
  - apply (proj2 (definition_key_overlap_check
                    (demo_directory "{a} {b}" "{a};{c}") _ _ _ ti to1
                    eq_refl eq_refl eq_refl Hti Hto1)).
    vm_compute in Hti, Hto1. injection Hti as <-. injection Hto1 as <-.
    vm_compute. lia.
Defined.

(** The two boundary values of the check: no shared key and one shared
    key both load. *)
Lemma definition_loads_with_overlap_0_and_1 :
  is_Ok (MappingDefinition.load_from_directory (demo_directory "{a} {b}" "{c}"))
  = true
  /\ is_Ok (MappingDefinition.load_from_directory
              (demo_directory "{a} {b}" "{a};{c}")) = true.
Proof. split; vm_compute; reflexivity. Qed.

(* ===================================================================== *)
(** * Parsing a text against a template                                   *)
(* ===================================================================== *)

Lemma list_pair_ind {A} (P : list A -> Prop) :
  P [] -> (forall x, P [x]) -> (forall x y l, P l -> P (x :: y :: l)) ->
  forall l, P l.
Proof.
  intros Hnil Hone Hstep.
  assert (Hboth : forall l, P l /\ forall x, P (x :: l)).
  { induction l as [|y l [IH1 IH2]].
    - split; [exact Hnil | exact Hone].
    - split; [apply IH2 | ]. intros x. apply Hstep, IH1. }
  intros l. apply Hboth.
Qed.

Lemma parse_loop_Raise ps cur d e :
  Template.parse_loop ps cur d = Raise e -> exists msg, e = ValueError msg.
Proof.
  revert cur d. induction ps as [| p | p q ps IH] using list_pair_ind;
    intros cur d; simpl.
  - discriminate.
  - discriminate.
  - destruct (Py.find cur (part_raw q)) as [i|].
    + apply IH.
    + intros [= <-]. eexists. reflexivity.
Qed.

(** With at least one part, the only exception of [parse] is the parse
    error. *)
Lemma parse_Raise t text e :
  parts t <> [] -> Template.parse t text = Raise e ->
  exists msg, e = ValueError msg.
Proof.
  unfold Template.parse. destruct (parts t) as [|p0 ps]; [congruence | ].
  intros _. destruct (part_key p0).
  - apply parse_loop_Raise.
  - destruct (negb (Py.startswith text (part_raw p0))).
    + intros [= <-]. eexists. reflexivity.
    + apply parse_loop_Raise.
Qed.

(** *** C3
    The check of the leading literal is made on the text as given, not on
    the trimmed text.  A text with a blank before the literal is rejected
    although its trimmed form starts with the literal; a text that only
    starts with the literal before trimming is accepted. *)
Theorem parse_checks_leading_literal_untrimmed :
  (exists t p,
     Template.load (py_str "A{x}") = Ok t
     /\ head (parts t) = Some p /\ part_key p = None
     /\ Py.startswith (Py.strip (py_str " Ab")) (part_raw p) = true
     /\ Template.parse t (py_str " Ab")
        = Raise (ValueError (py_str "Expected 'A' at start of text ' Ab'.")))
  /\ (exists t p,
        Template.load (py_str "A {x}") = Ok t
        /\ head (parts t) = Some p /\ part_key p = None
        /\ Py.startswith (Py.strip (py_str "A ")) (part_raw p) = false
        /\ Template.parse t (py_str "A ") = Ok {[ Some (py_str "x") := [] ]}).
Proof.
  split.
  - eexists. eexists. split; [vm_compute; reflexivity | ].
    repeat split; vm_compute; reflexivity.
  - eexists. eexists. split; [vm_compute; reflexivity | ].
    repeat split; vm_compute; reflexivity.
Qed.

(* ===================================================================== *)
(** * The mapping engine                                                  *)
(* ===================================================================== *)

Lemma foldl_insert_lookup (items : list (pykey * str)) (d : pydict) (k : pykey) :
  foldl (fun d kv => <[kv.1 := kv.2]> d) d items !! k
  = match last (filter (fun kv => kv.1 = k) items) with
    | Some kv => Some kv.2
    | None => d !! k
    end.
Proof.
  induction items as [|[k0 v0] items IH] using rev_ind.
  - reflexivity.
  - rewrite foldl_app, filter_app, filter_cons, filter_nil. simpl.
    destruct (decide (k0 = k)) as [->|Hne].
    + rewrite last_snoc. apply lookup_insert_eq.
    + rewrite app_nil_r, lookup_insert_ne by exact Hne. exact IH.
Qed.

(** The dictionary [{key: default for key in ks}]. *)
Lemma dict_of_default_lookup (ks : list str) (default : str) (k : pykey) :
  dict_of_items (List.map (fun key => (Some key, default)) ks) !! k
  = if decide (k ∈ Some <$> ks) then Some default else None.
Proof.
  unfold dict_of_items. rewrite foldl_insert_lookup, lookup_empty.
  induction ks as [|k0 ks IH] using rev_ind.
  - reflexivity.
  - rewrite List.map_app, filter_app, fmap_app. simpl.
    rewrite filter_cons, filter_nil. simpl.
    destruct (decide (Some k0 = k)) as [<-|Hne].
    + rewrite last_snoc. simpl.
      rewrite decide_True; [reflexivity | ].
      apply elem_of_app. right. left.
    + rewrite app_nil_r, IH.
      destruct (decide (k ∈ Some <$> ks)) as [Hin|Hnin].
      * rewrite decide_True; [reflexivity | ]. apply elem_of_app. left. exact Hin.
      * rewrite decide_False; [reflexivity | ].
        intros [Hin|Hin]%elem_of_app; [exact (Hnin Hin) | ].
        apply list_elem_of_singleton in Hin. congruence.
Qed.

(** *** C2
    Let the prompt be built and the collaborator answer with a completion
    that the output template fails to parse.  The failure is a parse
    error.  With a default, [map] returns an outcome that holds the
    completion as its raw text, the default under every key of the output
    template and under no other key, a false success flag and the text of
    the parse error.  With no default, [map] raises the parse error. *)
Theorem map_parse_failure_default_or_raise
    (self : ChatGPTTextCompletionsMapping) (call : nat) (input : pydict)
    (message completion : str) (e : exception) :
  parts (output_template (definition self)) <> [] ->
  prompt_prefix self <> [] ->
  Template.fill (input_template (definition self)) input = Ok message ->
  gpt_client self call (Mapping.prompt_add (prompt_prefix self) (USER, message))
    = Ok completion ->
  Template.parse (output_template (definition self)) completion = Raise e ->
  exists err_message,
    e = ValueError err_message
    /\ Mapping.map self call input None = Raise e
    /\ forall default,
         exists outcome,
           Mapping.map self call input (Some default) = Ok outcome
           /\ out_raw outcome = completion
           /\ success outcome = false
           /\ error_message outcome = Some err_message
           /\ forall k : pykey,
                parsed outcome !! k
                = if decide (k ∈ Some <$> keys (output_template (definition self)))
                  then Some default else None.
Proof.
  intros Hparts Hprefix Hfill Hrun Hparse.
  destruct (parse_Raise _ _ _ Hparts Hparse) as [err_message ->].
  exists err_message. split; [reflexivity | ].
  unfold Mapping.map. rewrite Hfill. simpl. rewrite Hrun. simpl.
  destruct (prompt_prefix self) as [|m0 prefix]; [congruence | ].
  simpl. rewrite Hparse. split; [reflexivity | ].
  intros default. eexists. split; [reflexivity | ]. simpl.
  repeat split. apply dict_of_default_lookup.
Qed.

Lemma map_parse_failure_default_or_raise_witness :
  Mapping.map (demo_mapping "four") 0
    (_field_values (Corpus_first demo_corpus)) None
  = Raise (ValueError (py_str "Expected 'A: ' at start of text 'four'."))
  /\ exists outcome,
       Mapping.map (demo_mapping "four") 0
         (_field_values (Corpus_first demo_corpus)) (Some (py_str "?"))
       = Ok outcome
       /\ out_raw outcome = py_str "four"
       /\ success outcome = false
       /\ parsed outcome !! Some (py_str "answer") = Some (py_str "?").
Proof.
  destruct (map_parse_failure_default_or_raise (demo_mapping "four") 0
              (_field_values (Corpus_first demo_corpus))
              (py_str "Q: 2+2?") (py_str "four")
              (ValueError (py_str "Expected 'A: ' at start of text 'four'.")))
    as (err_message & Herr & Hnone & Hdefault).
  - vm_compute. discriminate.
  - vm_compute. discriminate.
  - vm_compute. reflexivity.
  - vm_compute. reflexivity.
  - vm_compute. reflexivity.
  - split; [exact Hnone | ].
    destruct (Hdefault (py_str "?"))
      as (outcome & Hmap & Hraw & Hsuccess & _ & Hparsed).
    exists outcome. repeat split; [exact Hmap | exact Hraw | exact Hsuccess | ].
    rewrite Hparsed. reflexivity.
Defined.


Lemma map_batch_Ok_lookup self first_call inputs default outputs i input :
  Mapping.map_batch self first_call inputs default = Ok outputs ->
  inputs !! i = Some input ->
  exists output,
    outputs !! i = Some output
    /\ Mapping.map self (first_call + i) (_field_values input) default = Ok output.
Proof.
  unfold Mapping.map_batch. intros H Hi.
  apply (for_each_Ok_lookup _ _ _ i (i, input) H).
  apply enumerate_lookup, Hi.
Qed.




(* ===================================================================== *)
(** * Strings                                                             *)
(* ===================================================================== *)

Lemma startswith_app p s : Py.startswith (p ++ s) p = true.
Proof.
  induction p as [|c p IH]; simpl; [reflexivity | ].
  rewrite Ascii.eqb_refl. exact IH.
Qed.

Lemma startswith_true s p :
  Py.startswith s p = true <-> exists r, s = p ++ r.
Proof.
  split.
  - revert s. induction p as [|c p IH]; intros s; simpl.
    + intros _. exists s. reflexivity.
    + destruct s as [|c' s]; [discriminate | ].
      intros [Hc Hs]%andb_true_iff. apply Ascii.eqb_eq in Hc as ->.
      destruct (IH s Hs) as [r ->]. exists r. reflexivity.
  - intros [r ->]. apply startswith_app.
Qed.

Lemma startswith_head_ne c s o p :
  c <> o -> Py.startswith (c :: s) (o :: p) = false.
Proof.
  intros Hne. simpl. apply Ascii.eqb_neq in Hne. rewrite Hne. reflexivity.
Qed.

Lemma startswith_app_long x r p :
  length p <= length x -> Py.startswith (x ++ r) p = Py.startswith x p.
Proof.
  revert x. induction p as [|c p IH]; intros x Hlen; simpl.
  - destruct (x ++ r), x; reflexivity.
  - destruct x as [|c' x]; simpl in *; [lia | ].
    rewrite IH by lia. reflexivity.
Qed.

Lemma no_opening_brace_spec s :
  no_opening_brace s = true <-> Py.open_brace ∉ s.
Proof.
  unfold no_opening_brace. induction s as [|c s IH]; simpl.
  - split; [intros _; apply not_elem_of_nil | reflexivity].
  - rewrite andb_true_iff, IH, not_elem_of_cons, negb_true_iff, Ascii.eqb_neq.
    split; intros [H1 H2]; (split; [congruence | assumption]).
Qed.

Lemma plain_spec s :
  plain s = true <-> (Py.open_brace ∉ s) /\ (Py.close_brace ∉ s).
Proof.
  unfold plain, Py.is_brace. induction s as [|c s IH]; simpl.
  - split; [intros _; split; apply not_elem_of_nil | reflexivity].
  - rewrite andb_true_iff, IH, !not_elem_of_cons, negb_true_iff, orb_false_iff,
      !Ascii.eqb_neq.
    split.
    + intros [[H1 H2] [H3 H4]]. repeat split; (congruence || assumption).
    + intros [[H1 H2] [H3 H4]]. repeat split; (congruence || assumption).
Qed.

Lemma plain_no_opening_brace s : plain s = true -> no_opening_brace s = true.
Proof. rewrite plain_spec, no_opening_brace_spec. tauto. Qed.

Lemma bracketed_unfold k :
  Template.bracketed k = Py.open_brace :: k ++ [Py.close_brace].
Proof. reflexivity. Qed.

(** Two names without a closing brace whose bracketed forms start the
    same string are the same name. *)
Lemma closed_prefix_inj (k k' r r' : str) :
  Py.close_brace ∉ k -> Py.close_brace ∉ k' ->
  k ++ Py.close_brace :: r = k' ++ Py.close_brace :: r' -> k = k'.
Proof.
  revert k'. induction k as [|c k IH]; intros [|c' k'] Hk Hk'; simpl.
  - reflexivity.
  - intros [= <- _]. exfalso. apply Hk'. left.
  - intros [= -> _]. exfalso. apply Hk. left.
  - intros [= -> H]. f_equal. apply (IH k'); [ | | exact H ].
    + intros Hin. apply Hk. right. exact Hin.
    + intros Hin. apply Hk'. right. exact Hin.
Qed.

Lemma bracketed_startswith k k' s :
  Py.close_brace ∉ k -> Py.close_brace ∉ k' ->
  Py.startswith (Template.bracketed k' ++ s) (Template.bracketed k) = true ->
  k = k'.
Proof.
  intros Hk Hk' [r Hr]%startswith_true.
  rewrite !bracketed_unfold in Hr. simpl in Hr. injection Hr as Hr.
  rewrite <- !app_assoc in Hr. simpl in Hr.
  symmetry. exact (closed_prefix_inj _ _ _ _ Hk' Hk Hr).
Qed.

(** ** [replace] *)

Lemma replace_scan_skip old new a s :
  Py.replace_scan old new (length a) (a ++ s) = Py.replace_scan old new 0 s.
Proof. induction a as [|c a IH]; simpl; [reflexivity | exact IH]. Qed.

Lemma replace_scan_match old new s :
  old <> [] ->
  Py.replace_scan old new 0 (old ++ s) = new ++ Py.replace_scan old new 0 s.
Proof.
  destruct old as [|o old]; [congruence | ]. intros _.
  change ((o :: old) ++ s) with (o :: (old ++ s)).
  cbn [Py.replace_scan].
  change (o :: old ++ s) with ((o :: old) ++ s).
  rewrite startswith_app.
  replace (length (o :: old) - 1) with (length old) by (simpl; lia).
  rewrite replace_scan_skip. reflexivity.
Qed.

Lemma replace_scan_pass o old new a s :
  o ∉ a ->
  Py.replace_scan (o :: old) new 0 (a ++ s)
  = a ++ Py.replace_scan (o :: old) new 0 s.
Proof.
  induction a as [|c a IH]; intros Ha; [reflexivity | ].
  apply not_elem_of_cons in Ha as [Hc Ha].
  change ((c :: a) ++ s) with (c :: (a ++ s)).
  cbn [Py.replace_scan]. rewrite startswith_head_ne by congruence.
  rewrite IH by exact Ha. reflexivity.
Qed.

Lemma replace_bracketed s k v :
  Py.replace s (Template.bracketed k) v
  = Py.replace_scan (Template.bracketed k) v 0 s.
Proof. reflexivity. Qed.

Lemma replace_scan_hole_other k k' v s :
  plain k = true -> plain k' = true -> k' <> k ->
  Py.replace_scan (Template.bracketed k) v 0 (Template.bracketed k' ++ s)
  = Template.bracketed k' ++ Py.replace_scan (Template.bracketed k) v 0 s.
Proof.
  intros [_ Hk]%plain_spec [Hk'o Hk'c]%plain_spec Hne.
  destruct (Py.startswith (Template.bracketed k' ++ s) (Template.bracketed k))
    eqn:Hstart.
  - apply bracketed_startswith in Hstart; congruence.
  - rewrite (bracketed_unfold k') in *.
    change ((Py.open_brace :: k' ++ [Py.close_brace]) ++ s)
      with (Py.open_brace :: (k' ++ [Py.close_brace]) ++ s) in *.
    rewrite (bracketed_unfold k) in *.
    cbn [Py.replace_scan]. rewrite Hstart, <- app_comm_cons. f_equal.
    apply replace_scan_pass.
    rewrite elem_of_app, list_elem_of_singleton.
    intros [H | H]; [exact (Hk'o H) | discriminate].
Qed.

(* ===================================================================== *)
(** * Filling a template                                                  *)
(* ===================================================================== *)

Lemma flatten_cons g gs : flatten (g :: gs) = segment_text g ++ flatten gs.
Proof. reflexivity. Qed.

(** Replacing the bracketed form of [k] in a template being filled plugs
    the holes of [k] and leaves the rest as it is. *)
Lemma replace_flatten gs k v :
  forallb segment_ok gs = true -> plain k = true ->
  Py.replace (flatten gs) (Template.bracketed k) v = flatten (plug k v <$> gs).
Proof.
  intros Hgs Hk. rewrite replace_bracketed.
  induction gs as [|g gs IH]; [reflexivity | ].
  apply andb_true_iff in Hgs as [Hg Hgs]. specialize (IH Hgs).
  rewrite fmap_cons, !flatten_cons.
  destruct g as [s|k']; cbn [segment_text plug segment_ok] in Hg |- *.
  - rewrite bracketed_unfold in *.
    rewrite replace_scan_pass by (apply no_opening_brace_spec, Hg).
    rewrite IH. reflexivity.
  - destruct (decide (k' = k)) as [->|Hne]; cbn [segment_text].
    + rewrite replace_scan_match by discriminate. rewrite IH. reflexivity.
    + rewrite replace_scan_hole_other by assumption. rewrite IH. reflexivity.
Qed.

Lemma plug_segment_ok k v gs :
  no_opening_brace v = true -> forallb segment_ok gs = true ->
  forallb segment_ok (plug k v <$> gs) = true.
Proof.
  intros Hv. induction gs as [|g gs IH]; [reflexivity | ].
  intros [Hg Hgs]%andb_true_iff. rewrite fmap_cons. simpl.
  rewrite (IH Hgs), andb_true_r.
  destruct g as [s|k']; simpl; [exact Hg | ].
  destruct (decide (k' = k)); simpl; assumption.
Qed.

Lemma plug_all_chunk (f : str -> str) s ks :
  foldl (fun g k => plug k (f k) g) (Chunk s) ks = Chunk s.
Proof. induction ks as [|k ks IH]; simpl; [reflexivity | exact IH]. Qed.

Lemma plug_all_hole (f : str -> str) k ks :
  k ∈ ks -> foldl (fun g k => plug k (f k) g) (Hole k) ks = Chunk (f k).
Proof.
  induction ks as [|k0 ks IH]; intros Hin; [inversion Hin | ]. simpl.
  destruct (decide (k = k0)) as [->|Hne].
  - apply plug_all_chunk.
  - apply IH. apply elem_of_cons in Hin as [Heq|Hin]; [congruence | exact Hin].
Qed.

Lemma fill_loop_flatten (t_raw : str) (ks : list str) (values : pydict)
    (gs : list segment) :
  forallb segment_ok gs = true ->
  (forall k, k ∈ ks ->
     plain k = true
     /\ exists v, values !! Some k = Some v /\ no_opening_brace v = true) ->
  Template.fill_loop t_raw ks values (flatten gs)
  = Ok (flatten
          ((fun g => foldl (fun g k => plug k (value_of values k) g) g ks)
             <$> gs)).
Proof.
  revert gs. induction ks as [|k ks IH]; intros gs Hgs Hks.
  - simpl. rewrite list_fmap_id. reflexivity.
  - destruct (Hks k ltac:(left)) as (Hk & v & Hv & Hvo).
    assert (Hval : value_of values k = v) by (unfold value_of; rewrite Hv; reflexivity).
    cbn [Template.fill_loop]. rewrite Hv, <- Hval.
    rewrite replace_flatten by assumption.
    rewrite IH.
    + rewrite <- list_fmap_compose. reflexivity.
    + apply plug_segment_ok; [rewrite Hval | ]; assumption.
    + intros k' Hk'. apply Hks. right. exact Hk'.
Qed.

Lemma well_braced_part_inv p :
  well_braced_part p = true ->
  part_raw p = segment_text (segment_of_part p)
  /\ segment_ok (segment_of_part p) = true
  /\ forall k, part_key p = Some k -> plain k = true.
Proof.
  unfold well_braced_part, segment_of_part.
  destruct (part_key p) as [k0|]; cbn [segment_text segment_ok].
  - intros [Hk0 Hraw]%andb_true_iff. apply bool_decide_eq_true in Hraw.
    repeat split; [exact Hraw | exact Hk0 | ]. intros k [= <-]. exact Hk0.
  - intros Hp. repeat split; [apply plain_no_opening_brace, Hp | discriminate].
Qed.

Lemma well_braced_parts_inv ps :
  forallb well_braced_part ps = true ->
  concat (part_raw <$> ps) = flatten (segment_of_part <$> ps)
  /\ forallb segment_ok (segment_of_part <$> ps) = true
  /\ forall k, k ∈ placeholder_names ps -> plain k = true.
Proof.
  induction ps as [|p ps IH]; intros Hparts.
  - repeat split. intros k Hk. inversion Hk.
  - cbn [forallb] in Hparts. apply andb_true_iff in Hparts as [Hp Hps].
    destruct (IH Hps) as (IH1 & IH2 & IH3).
    destruct (well_braced_part_inv p Hp) as (Hp1 & Hp2 & Hp3).
    rewrite !fmap_cons. cbn [concat forallb].
    rewrite flatten_cons, IH1, IH2, Hp1, Hp2.
    repeat split. intros k Hk.
    apply list_elem_of_omap in Hk as (p' & Hin & Hkey).
    apply elem_of_cons in Hin as [->|Hin]; [exact (Hp3 k Hkey) | ].
    apply IH3, list_elem_of_omap. exists p'. split; assumption.
Qed.

(** What the test [well_braced] says of a template. *)
Lemma well_braced_inv t :
  well_braced t = true ->
  raw t = flatten (segment_of_part <$> parts t)
  /\ forallb segment_ok (segment_of_part <$> parts t) = true
  /\ (forall k, k ∈ keys t <-> k ∈ placeholder_names (parts t))
  /\ (forall k, k ∈ keys t -> plain k = true).
Proof.
  unfold well_braced. intros [[Hraw Hparts]%andb_true_iff Hkeys]%andb_true_iff.
  apply bool_decide_eq_true in Hraw, Hkeys.
  assert (Hsame : forall k, k ∈ keys t <-> k ∈ placeholder_names (parts t)).
  { intros k. unfold set_of in Hkeys.
    rewrite <- (elem_of_list_to_set (C := gset str) k (keys t)), Hkeys.
    apply elem_of_list_to_set. }
  destruct (well_braced_parts_inv _ Hparts) as (H1 & H2 & H3).
  rewrite Hraw. repeat split; try assumption.
  - apply Hsame.
  - apply Hsame.
  - intros k Hk. apply H3, Hsame, Hk.
Qed.

Lemma render_flatten (values : pydict)
    (ps : list TextCompletionsMappingTemplatePart) (ks : list str) :
  (forall k, k ∈ placeholder_names ps -> k ∈ ks) ->
  flatten ((fun g => foldl (fun g k => plug k (value_of values k) g) g ks)
             <$> (segment_of_part <$> ps))
  = render values ps.
Proof.
  unfold render, flatten. intros Hks.
  rewrite <- !list_fmap_compose. f_equal.
  apply list_fmap_ext. intros i p Hp. simpl.
  unfold segment_of_part.
  destruct (part_key p) as [k|] eqn:Hkey.
  - rewrite plug_all_hole; [reflexivity | ].
    apply Hks. unfold placeholder_names. apply list_elem_of_omap.
    exists p. split; [ | exact Hkey ]. apply list_elem_of_lookup. exists i. exact Hp.
  - rewrite plug_all_chunk. reflexivity.
Qed.

(** With every key given a value without an opening brace, [fill] writes
    a well-braced template out part by part. *)
Lemma fill_render (t : TextCompletionsMappingTemplate) (values : pydict) :
  well_braced t = true ->
  (forall k, k ∈ keys t ->
     exists v, values !! Some k = Some v /\ no_opening_brace v = true) ->
  Template.fill t values = Ok (render values (parts t)).
Proof.
  intros Hwb Hvalues.
  destruct (well_braced_inv t Hwb) as (Hraw & Hok & Hsame & Hplain).
  unfold Template.fill. rewrite Hraw at 2.
  rewrite fill_loop_flatten.
  - rewrite render_flatten; [reflexivity | ]. intros k Hk. apply Hsame, Hk.
  - exact Hok.
  - intros k Hk. split; [apply Hplain, Hk | apply Hvalues, Hk].
Qed.

Lemma fill_loop_missing (t_raw : str) (ks : list str) (values : pydict)
    (filled : str) :
  (exists k, k ∈ ks /\ values !! Some k = None) ->
  exists k, k ∈ ks /\ values !! Some k = None
            /\ Template.fill_loop t_raw ks values filled
               = Raise (ValueError (Template.missing_key_message k t_raw)).
Proof.
  revert filled. induction ks as [|k0 ks IH]; intros filled (k & Hin & Hk).
  - inversion Hin.
  - simpl. destruct (values !! Some k0) as [v|] eqn:Hk0.
    + destruct (IH (Py.replace filled (Template.bracketed k0) v))
        as (k' & Hin' & Hk' & Hfill).
      * exists k. split; [ | exact Hk ].
        apply elem_of_cons in Hin as [->|Hin]; [congruence | exact Hin].
      * exists k'. repeat split; [right; exact Hin' | exact Hk' | exact Hfill].
    + exists k0. repeat split; [left | exact Hk0].
Qed.

(** ** One-pass substitution *)








Lemma provides_without_opening_brace_spec (values : pydict) (ks : list str) :
  provides_without_opening_brace values ks = true ->
  forall k, k ∈ ks ->
    exists v, values !! Some k = Some v /\ no_opening_brace v = true.
Proof.
  unfold provides_without_opening_brace. intros H k Hk.
  rewrite forallb_forall in H. specialize (H k).
  destruct (values !! Some k) as [v|].
  - exists v. split; [reflexivity | ]. apply H, list_elem_of_In, Hk.
  - discriminate H. apply list_elem_of_In, Hk.
Qed.



(* ===================================================================== *)
(** * The round trip                                                      *)
(* ===================================================================== *)

Lemma find_unfold s sub :
  Py.find s sub
  = if Py.startswith s sub then Some 0
    else match s with
         | [] => None
         | _ :: s' => S <$> Py.find s' sub
         end.
Proof. destruct s; reflexivity. Qed.

(** An occurrence found right after [v] is still the first one when more
    text follows. *)
Lemma find_app_here v sub rest :
  Py.find (v ++ sub) sub = Some (length v) ->
  Py.find (v ++ sub ++ rest) sub = Some (length v).
Proof.
  induction v as [|c v IH]; intros H.
  - simpl. rewrite find_unfold, startswith_app. reflexivity.
  - rewrite find_unfold in H. rewrite find_unfold.
    change ((c :: v) ++ sub ++ rest) with (c :: v ++ sub ++ rest).
    change ((c :: v) ++ sub) with (c :: v ++ sub) in H.
    assert (Hlong : Py.startswith (c :: v ++ sub ++ rest) sub
                    = Py.startswith (c :: v ++ sub) sub).
    { change (c :: v ++ sub ++ rest) with ((c :: v) ++ sub ++ rest).
      rewrite app_assoc. apply startswith_app_long.
      simpl. rewrite length_app. lia. }
    rewrite Hlong.
    destruct (Py.startswith (c :: v ++ sub) sub); [discriminate | ].
    destruct (Py.find (v ++ sub) sub) as [n|] eqn:Hn; [ | discriminate ].
    simpl in H. injection H as ->. rewrite IH by reflexivity. reflexivity.
Qed.

Lemma render_cons values p ps :
  render values (p :: ps)
  = match part_key p with
    | None => part_raw p
    | Some k => value_of values k
    end ++ render values ps.
Proof. reflexivity. Qed.

Lemma parsed_from_cons values p ps d :
  parsed_from values (p :: ps) d
  = parsed_from values ps
      match part_key p with
      | Some k => <[Some k := value_of values k]> d
      | None => d
      end.
Proof. reflexivity. Qed.

Lemma alternates_cons_inv p ps :
  alternates (p :: ps) = true ->
  alternates ps = true
  /\ (is_placeholder p = false -> starts_with_placeholder ps = true)
  /\ (is_placeholder p = true ->
      match ps with q :: _ => part_key q = None | [] => True end).
Proof.
  destruct ps as [|q ps]; [repeat split | ].
  change (alternates (p :: q :: ps))
    with (negb (Bool.eqb (is_placeholder p) (is_placeholder q))
          && alternates (q :: ps)).
  intros [Hpq Hrest]%andb_true_iff. apply negb_true_iff in Hpq.
  unfold starts_with_placeholder, is_placeholder in *.
  destruct (part_key p), (part_key q); simpl in Hpq;
    repeat split; congruence.
Qed.

Lemma separators_found_cons_inv values p ps :
  separators_found values (p :: ps) = true -> separators_found values ps = true.
Proof.
  destruct ps as [|q ps]; [reflexivity | ].
  change (separators_found values (p :: q :: ps))
    with (match part_key p with
          | Some k =>
              bool_decide (Py.find (value_of values k ++ part_raw q) (part_raw q)
                           = Some (length (value_of values k)))
          | None => true
          end && separators_found values (q :: ps)).
  intros [_ H]%andb_true_iff. exact H.
Qed.

(** The loop of [parse] on a template written out part by part, from a
    placeholder on. *)
Lemma parse_loop_render (values : pydict)
    (ps : list TextCompletionsMappingTemplatePart) (d : pydict) :
  alternates ps = true -> starts_with_placeholder ps = true ->
  separators_found values ps = true ->
  Template.parse_loop ps (render values ps) d = Ok (parsed_from values ps d).
Proof.
  revert d. induction ps as [| p | p q ps IH] using list_pair_ind;
    intros d Halt Hstart Hsep.
  - reflexivity.
  - unfold starts_with_placeholder, is_placeholder in Hstart.
    rewrite render_cons, parsed_from_cons. cbn [Template.parse_loop].
    destruct (part_key p) as [k|]; [ | discriminate ].
    rewrite app_nil_r. reflexivity.
  - pose proof (alternates_cons_inv _ _ Halt) as (Halt' & _ & Hq).
    specialize (Hq Hstart).
    pose proof (alternates_cons_inv _ _ Halt') as (Halt'' & Hps & _).
    assert (Hqlit : is_placeholder q = false)
      by (unfold is_placeholder; rewrite Hq; reflexivity).
    specialize (Hps Hqlit).
    pose proof (separators_found_cons_inv _ _ _
                  (separators_found_cons_inv _ _ _ Hsep)) as Hsep''.
    change (separators_found values (p :: q :: ps))
      with (match part_key p with
            | Some k =>
                bool_decide (Py.find (value_of values k ++ part_raw q) (part_raw q)
                             = Some (length (value_of values k)))
            | None => true
            end && separators_found values (q :: ps)) in Hsep.
    apply andb_true_iff in Hsep as [Hfind _].
    unfold starts_with_placeholder, is_placeholder in Hstart.
    rewrite !render_cons, !parsed_from_cons, Hq. cbn [Template.parse_loop].
    destruct (part_key p) as [k|]; [ | discriminate ].
    apply bool_decide_eq_true in Hfind.
    rewrite (find_app_here _ _ _ Hfind).
    rewrite take_app_length.
    rewrite (app_assoc (value_of values k)), drop_app_length'
      by (rewrite length_app; reflexivity).
    apply IH; assumption.
Qed.

Lemma parsed_from_lookup (values : pydict)
    (ps : list TextCompletionsMappingTemplatePart) (d : pydict) (key : pykey) :
  parsed_from values ps d !! key
  = match key with
    | Some k =>
        if decide (k ∈ placeholder_names ps) then Some (value_of values k)
        else d !! key
    | None => d !! key
    end.
Proof.
  unfold parsed_from, placeholder_names.
  induction ps as [|p ps IH] using rev_ind.
  - destruct key; reflexivity.
  - rewrite foldl_app, omap_app. cbn [foldl omap list_omap].
    destruct (part_key p) as [k0|] eqn:Hk0.
    + destruct key as [k|].
      * destruct (decide (k0 = k)) as [->|Hne].
        -- rewrite lookup_insert_eq, decide_True; [reflexivity | ].
           apply elem_of_app. right. left.
        -- rewrite lookup_insert_ne by congruence. rewrite IH.
           destruct (decide (k ∈ omap part_key ps)) as [Hin|Hnin].
           ++ rewrite decide_True; [reflexivity | ]. apply elem_of_app. left. exact Hin.
           ++ rewrite decide_False; [reflexivity | ].
              intros [Hin|Hin]%elem_of_app; [exact (Hnin Hin) | ].
              apply list_elem_of_singleton in Hin. congruence.
      * rewrite lookup_insert_ne by discriminate. exact IH.
    + rewrite app_nil_r. exact IH.
Qed.

Lemma restrict_to_keys_lookup (ks : list str) (values : pydict) (key : pykey) :
  restrict_to_keys ks values !! key
  = match key with
    | Some k => if decide (k ∈ ks) then values !! key else None
    | None => None
    end.
Proof.
  unfold restrict_to_keys. apply option_eq. intros v.
  rewrite map_lookup_filter_Some. simpl.
  destruct key as [k|].
  - destruct (decide (k ∈ ks)) as [Hin|Hnin].
    + split; [tauto | ]. intros H. split; [exact H | ].
      apply list_elem_of_fmap. exists k. split; [reflexivity | exact Hin].
    + split; [ | discriminate ]. intros [_ (k' & [= <-] & Hin)%list_elem_of_fmap].
      contradiction.
  - split; [ | discriminate ]. intros [_ (k' & Hk' & _)%list_elem_of_fmap].
    discriminate.
Qed.

(** [parse] on a template written out part by part, when trimming
    leaves the text as it is. *)
Lemma parse_render (t : TextCompletionsMappingTemplate) (values : pydict) :
  parts t <> [] -> alternates (parts t) = true ->
  separators_found values (parts t) = true ->
  Py.strip (render values (parts t)) = render values (parts t) ->
  Template.parse t (render values (parts t))
  = Ok (parsed_from values (parts t) ∅).
Proof.
  unfold Template.parse. intros Hne Halt Hsep Hstrip. rewrite Hstrip.
  destruct (parts t) as [|p0 ps]; [congruence | ].
  destruct (part_key p0) as [k|] eqn:Hk.
  - apply parse_loop_render; [exact Halt | | exact Hsep].
    unfold starts_with_placeholder, is_placeholder. rewrite Hk. reflexivity.
  - pose proof (alternates_cons_inv _ _ Halt) as (Halt' & Hps & _).
    rewrite render_cons, parsed_from_cons, Hk, startswith_app.
    cbn [negb drop]. rewrite drop_app_length.
    apply parse_loop_render; [exact Halt' | | ].
    + apply Hps. unfold is_placeholder. rewrite Hk. reflexivity.
    + apply (separators_found_cons_inv _ _ _ Hsep).
Qed.

Lemma parsed_from_restrict (t : TextCompletionsMappingTemplate) (values : pydict) :
  (forall k, k ∈ keys t <-> k ∈ placeholder_names (parts t)) ->
  (forall k, k ∈ keys t -> is_Some (values !! Some k)) ->
  parsed_from values (parts t) ∅ = restrict_to_keys (keys t) values.
Proof.
  intros Hsame Hvalues. apply map_eq. intros key.
  rewrite parsed_from_lookup, restrict_to_keys_lookup, lookup_empty.
  destruct key as [k|]; [ | reflexivity ].
  destruct (decide (k ∈ placeholder_names (parts t))) as [Hin|Hnin].
  - apply Hsame in Hin. rewrite decide_True by exact Hin.
    destruct (Hvalues k Hin) as [v Hv]. unfold value_of. rewrite Hv. reflexivity.
  - rewrite decide_False; [reflexivity | ]. intros Hin. apply Hnin, Hsame, Hin.
Qed.

(** *** C1 (as amended)
    Take a loaded template in which every brace belongs to a placeholder
    whose name has no brace, and values that give every key a string
    without an opening brace, such that each literal that follows a
    placeholder is first found, in the value followed by the literal, right
    after the value.  Then [fill] returns a text, and if trimming leaves
    that text as it is, [parse] returns from it the values of the keys of
    the template. *)
Theorem parse_fill_roundtrip (t_raw : str)
    (t : TextCompletionsMappingTemplate) (values : pydict) :
  Template.load t_raw = Ok t ->
  well_braced t = true ->
  (forall k, k ∈ keys t ->
     exists v, values !! Some k = Some v /\ no_opening_brace v = true) ->
  separators_found values (parts t) = true ->
  exists filled,
    Template.fill t values = Ok filled
    /\ (Py.strip filled = filled ->
        Template.parse t filled = Ok (restrict_to_keys (keys t) values)).
Proof.
  intros Hload Hwb Hvalues Hsep.
  exists (render values (parts t)).
  split; [apply fill_render; assumption | ]. intros Hstrip.
  destruct (load_Ok_inv _ _ Hload) as (_ & _ & _ & Hne & Halt).
  destruct (well_braced_inv t Hwb) as (_ & _ & Hsame & _).
  rewrite parse_render by assumption. f_equal.
  apply parsed_from_restrict; [exact Hsame | ].
  intros k Hk. destruct (Hvalues k Hk) as (v & Hv & _). rewrite Hv. eexists. reflexivity.
Qed.

Lemma parse_fill_roundtrip_witness :
  Template.fill pair_template pair_values = Ok (py_str "Oslo, Norway")
  /\ Template.parse pair_template (py_str "Oslo, Norway")
     = Ok (dict_of_items [ (Some (py_str "city"), py_str "Oslo");
                           (Some (py_str "country"), py_str "Norway") ]).
Proof.
  destruct (parse_fill_roundtrip (py_str "{city}, {country}") pair_template
              pair_values) as (filled & Hfill & Hparse).
  - vm_compute. reflexivity.
  - vm_compute. reflexivity.
  - apply provides_without_opening_brace_spec. vm_compute. reflexivity.
  - vm_compute. reflexivity.
  - assert (Hfilled : filled = py_str "Oslo, Norway").
    { assert (H : Template.fill pair_template pair_values
                  = Ok (py_str "Oslo, Norway")) by (vm_compute; reflexivity).
      rewrite H in Hfill. injection Hfill as <-. reflexivity. }
    subst filled. split; [exact Hfill | ].
    rewrite Hparse; [ | vm_compute; reflexivity ].
    vm_compute. reflexivity.
Defined.

(** The claim C1 as the specification words it fails in four ways: a
    value that starts with a blank comes back trimmed; a value whose end
    together with the literal after it spells the literal early is cut
    short; values with braces can make the filled text miss a literal; and
    a closing brace of the template that no part accounts for ends up in a
    parsed value. *)
Lemma parse_fill_roundtrip_counterexample :
  roundtrip_fails (py_str "{a}")
    (dict_of_items [ (Some (py_str "a"), py_str " x") ])
  /\ roundtrip_fails (py_str "{a}aba{b}")
       (dict_of_items [ (Some (py_str "a"), py_str "ab");
                        (Some (py_str "b"), py_str "x") ])
  /\ roundtrip_fails (py_str "{a}x{b}y{cx}")
       (dict_of_items [ (Some (py_str "a"), py_str "{c");
                        (Some (py_str "b"), py_str "}");
                        (Some (py_str "cx"), py_str "V") ])
  /\ roundtrip_fails (py_str "{a}}")
       (dict_of_items [ (Some (py_str "a"), py_str "x") ]).
Proof.
  repeat split; eexists;
    (split; [vm_compute; reflexivity | ]);
    (split; [discriminate | ]);
    (split; [vm_compute; reflexivity | ]);
    (split; [vm_compute; reflexivity | ]);
    vm_compute; discriminate.
Qed.

(* ===================================================================== *)
(** * Trimming                                                            *)
(* ===================================================================== *)

Lemma drop_while_idem p s :
  Py.drop_while p (Py.drop_while p s) = Py.drop_while p s.
Proof.
  induction s as [|c s IH]; simpl; [reflexivity | ].
  destruct (p c) eqn:Hc; [exact IH | ]. simpl. rewrite Hc. reflexivity.
Qed.

Lemma drop_while_snoc_keep p l c :
  p c = false -> Py.drop_while p (l ++ [c]) = Py.drop_while p l ++ [c].
Proof.
  intros Hc. induction l as [|a l IH]; simpl.
  - rewrite Hc. reflexivity.
  - destruct (p a); [exact IH | reflexivity].
Qed.

Lemma rstrip_by_keeps_head p c s :
  p c = false -> Py.rstrip_by p (c :: s) = c :: Py.rstrip_by p s.
Proof.
  intros Hc. unfold Py.rstrip_by. simpl.
  rewrite drop_while_snoc_keep by exact Hc.
  rewrite rev_app_distr. reflexivity.
Qed.

Lemma rstrip_by_idem p s :
  Py.rstrip_by p (Py.rstrip_by p s) = Py.rstrip_by p s.
Proof.
  unfold Py.rstrip_by. rewrite rev_involutive, drop_while_idem. reflexivity.
Qed.

Lemma lstrip_rstrip_fixed p s :
  Py.drop_while p s = s ->
  Py.drop_while p (Py.rstrip_by p s) = Py.rstrip_by p s.
Proof.
  destruct s as [|c s]; [reflexivity | ]. simpl.
  destruct (p c) eqn:Hc.
  - intros H. exfalso.
    assert (Hlen : length (Py.drop_while p s) <= length s).
    { clear. induction s as [|a s IH]; simpl; [lia | ].
      destruct (p a); simpl; lia. }
    rewrite H in Hlen. simpl in Hlen. lia.
  - intros _. rewrite rstrip_by_keeps_head by exact Hc. simpl.
    rewrite Hc. reflexivity.
Qed.

Lemma strip_by_idem p s :
  Py.rstrip_by p (Py.lstrip_by p (Py.rstrip_by p (Py.lstrip_by p s)))
  = Py.rstrip_by p (Py.lstrip_by p s).
Proof.
  unfold Py.lstrip_by.
  rewrite lstrip_rstrip_fixed by apply drop_while_idem.
  apply rstrip_by_idem.
Qed.

Lemma strip_idem s : Py.strip (Py.strip s) = Py.strip s.
Proof. apply strip_by_idem. Qed.

(** *** X1
    Loading a template is insensitive to surrounding whitespace and
    idempotent: the raw string of a loaded template loads to the same
    template. *)
Theorem load_raw_again (t_raw : str) (t : TextCompletionsMappingTemplate) :
  Template.load t_raw = Ok t ->
  Template.load (raw t) = Ok t /\ Template.load (Py.strip t_raw) = Ok t
  /\ Py.strip (raw t) = raw t.
Proof.
  intros Hload.
  assert (Hstrip : Template.load (Py.strip t_raw) = Template.load t_raw).
  { unfold Template.load. rewrite strip_idem. reflexivity. }
  destruct (load_Ok_inv _ _ Hload) as (Hraw & _).
  rewrite Hraw, strip_idem, Hstrip. repeat split; assumption.
Qed.

Lemma load_raw_again_witness :
  Template.load (raw greeting_template) = Ok greeting_template.
Proof.
  apply (load_raw_again (py_str "  Hello, {name}! Bye, {name}.  ")).
  vm_compute. reflexivity.
Defined.

(* ===================================================================== *)
(** * The tokenizer                                                       *)
(* ===================================================================== *)

Lemma until_close_spec s body :
  Re.until_close s = Some body ->
  (Py.close_brace ∉ body) /\ exists rest, s = body ++ Py.close_brace :: rest.
Proof.
  revert body. induction s as [|c s IH]; intros body; simpl; [discriminate | ].
  destruct (Ascii.eqb c Py.close_brace) eqn:Hc.
  - intros [= <-]. apply Ascii.eqb_eq in Hc as ->.
    split; [apply not_elem_of_nil | exists s; reflexivity].
  - destruct (Re.until_close s) as [body'|]; simpl; [ | discriminate ].
    intros [= <-]. destruct (IH body' eq_refl) as (Hbody & rest & ->).
    apply Ascii.eqb_neq in Hc. split.
    + apply not_elem_of_cons. split; [congruence | exact Hbody].
    + exists rest. reflexivity.
Qed.

Lemma match_key_spec s body :
  Re.match_key s = Some body ->
  (Py.close_brace ∉ body) /\ exists rest, s = Re.braced body ++ rest.
Proof.
  destruct s as [|c s]; simpl; [discriminate | ].
  destruct (Ascii.eqb c Py.open_brace) eqn:Hc; [ | discriminate ].
  apply Ascii.eqb_eq in Hc as ->. intros H.
  destruct (until_close_spec _ _ H) as (Hbody & rest & ->).
  split; [exact Hbody | ]. exists rest. unfold Re.braced. simpl.
  rewrite <- app_assoc. reflexivity.
Qed.

Lemma match_key_head_other c s :
  c <> Py.open_brace -> Re.match_key (c :: s) = None.
Proof.
  intros Hc. simpl. apply Ascii.eqb_neq in Hc. rewrite Hc. reflexivity.
Qed.

Lemma text_run_spec s :
  plain (Re.text_run s) = true /\ exists rest, s = Re.text_run s ++ rest.
Proof.
  induction s as [|c s (IH1 & rest & IH2)]; simpl.
  - split; [reflexivity | exists []; reflexivity].
  - destruct (Py.is_brace c) eqn:Hc.
    + split; [reflexivity | exists (c :: s); reflexivity].
    + split.
      * unfold plain in *. simpl. rewrite Hc, IH1. reflexivity.
      * exists rest. simpl. rewrite <- IH2. reflexivity.
Qed.

Lemma match_text_spec s run :
  Re.match_text s = Some run ->
  run <> [] /\ plain run = true /\ exists rest, s = run ++ rest.
Proof.
  unfold Re.match_text. destruct (text_run_spec s) as (Hplain & rest & Hs).
  destruct (Re.text_run s) as [|c run'] eqn:Hrun; [discriminate | ].
  intros [= <-]. split; [discriminate | ]. split; [exact Hplain | ].
  exists rest. exact Hs.
Qed.

Lemma finditer_parts_scan_skip a s :
  Re.finditer_parts_scan (length a) (a ++ s) = Re.finditer_parts_scan 0 s.
Proof. induction a as [|c a IH]; simpl; [reflexivity | exact IH]. Qed.

Lemma findall_keys_scan_skip a s :
  Re.findall_keys_scan (length a) (a ++ s) = Re.findall_keys_scan 0 s.
Proof. induction a as [|c a IH]; simpl; [reflexivity | exact IH]. Qed.

Lemma findall_keys_scan_pass run s :
  plain run = true ->
  Re.findall_keys_scan 0 (run ++ s) = Re.findall_keys_scan 0 s.
Proof.
  intros [Hrun _]%plain_spec. induction run as [|c run IH]; [reflexivity | ].
  apply not_elem_of_cons in Hrun as [Hc Hrun].
  change ((c :: run) ++ s) with (c :: (run ++ s)).
  cbn [Re.findall_keys_scan]. rewrite match_key_head_other by congruence.
  apply IH, Hrun.
Qed.

(** Every match of the tokenizer has one of the two shapes. *)
Lemma finditer_parts_scan_shape skip s :
  Forall match_shape (Re.finditer_parts_scan skip s).
Proof.
  revert skip. induction s as [|c s IH]; intros skip;
    cbn [Re.finditer_parts_scan]; [constructor | ].
  destruct skip as [|k]; [ | apply IH ].
  destruct (Re.match_key (c :: s)) as [body|] eqn:Hkey.
  - constructor; [ | apply IH ].
    destruct (match_key_spec _ _ Hkey) as (Hbody & _).
    exists body. split; [reflexivity | exact Hbody].
  - destruct (Re.match_text (c :: s)) as [run|] eqn:Htext; [ | apply IH ].
    constructor; [ | apply IH ].
    destruct (match_text_spec _ _ Htext) as (Hne & Hplain & _).
    split; assumption.
Qed.

Lemma part_of_match_shape m :
  match_shape m ->
  exists p, Template.part_of_match m = Some p /\ part_shape p.
Proof.
  destruct m as [[key_match|] [text_match|]]; simpl; try contradiction.
  - intros (body & -> & Hbody). eexists. split; [reflexivity | ].
    unfold part_shape. simpl. exists body. repeat split. exact Hbody.
  - intros [Hne Hplain]. destruct text_match as [|c text_match]; [congruence | ].
    eexists. split; [reflexivity | ]. unfold part_shape. simpl.
    split; [discriminate | exact Hplain].
Qed.

Lemma tokens_shape t_raw : Forall part_shape (tokens t_raw).
Proof.
  unfold tokens, Re.finditer_parts.
  pose proof (finditer_parts_scan_shape 0 t_raw) as H.
  induction H as [|m ms Hm _ IH]; [constructor | ].
  destruct (part_of_match_shape m Hm) as (p & Hp & Hshape).
  assert (Hcons : omap Template.part_of_match (m :: ms)
                  = p :: omap Template.part_of_match ms).
  { change (omap Template.part_of_match (m :: ms))
      with (match Template.part_of_match m with
            | Some p => p :: omap Template.part_of_match ms
            | None => omap Template.part_of_match ms
            end).
    rewrite Hp. reflexivity. }
  rewrite Hcons. constructor; assumption.
Qed.

(** *** X2
    In a loaded template a literal part is not empty and has no brace,
    and a placeholder part is a body without closing brace between two
    braces, its key being what is left of that text once the braces at
    both ends are stripped. *)
Theorem load_part_shapes (t_raw : str) (t : TextCompletionsMappingTemplate) :
  Template.load t_raw = Ok t ->
  forall p, p ∈ parts t ->
    match part_key p with
    | None => part_raw p <> [] /\ plain (part_raw p) = true
    | Some k =>
        exists body,
          part_raw p = Re.braced body
          /\ (Py.close_brace ∉ body)
          /\ k = Py.strip_chars (py_str "{}") (Re.braced body)
    end.
Proof.
  intros Hload p Hp.
  destruct (load_Ok_inv _ _ Hload) as (_ & Hparts & _).
  rewrite Hparts in Hp.
  pose proof (tokens_shape (Py.strip t_raw)) as Hall.
  rewrite Forall_forall in Hall. exact (Hall p Hp).
Qed.

Lemma load_part_shapes_witness :
  exists body,
    py_str "{name}" = Re.braced body
    /\ (Py.close_brace ∉ body)
    /\ py_str "name" = Py.strip_chars (py_str "{}") (Re.braced body).
Proof.
  apply (load_part_shapes (py_str "Hello, {name}! Bye, {name}.") greeting_template
           ltac:(vm_compute; reflexivity)
           {| part_raw := py_str "{name}"; part_key := Some (py_str "name") |}).
  right. left.
Defined.

Lemma omap_cons {A B} (f : A -> option B) (x : A) (l : list A) :
  omap f (x :: l)
  = match f x with
    | Some y => y :: omap f l
    | None => omap f l
    end.
Proof. reflexivity. Qed.

Lemma braced_length body :
  length (Re.braced body) - 1 = length (body ++ [Py.close_brace]).
Proof. unfold Re.braced. simpl. lia. Qed.

(** The keys that [_parse_template_keys] finds are the bodies of the key
    matches of the tokenizer: the two patterns match the same places. *)
Lemma scans_agree n s :
  length s <= n ->
  Re.findall_keys_scan 0 s = omap key_body (Re.finditer_parts_scan 0 s).
Proof.
  revert s. induction n as [|n IH]; intros s Hlen.
  - destruct s; [reflexivity | simpl in Hlen; lia].
  - destruct s as [|c s]; [reflexivity | ].
    cbn [Re.findall_keys_scan Re.finditer_parts_scan].
    destruct (Re.match_key (c :: s)) as [body|] eqn:Hkey.
    + destruct (match_key_spec _ _ Hkey) as (_ & rest & Hs).
      unfold Re.braced in Hs. simpl in Hs. injection Hs as _ ->.
      rewrite omap_cons. unfold key_body, Re.braced at 2.
      rewrite removelast_last, braced_length, <- app_assoc.
      rewrite (app_assoc body), findall_keys_scan_skip, finditer_parts_scan_skip.
      f_equal. apply IH. simpl in Hlen. rewrite !length_app in Hlen. lia.
    + destruct (Re.match_text (c :: s)) as [run|] eqn:Htext.
      * destruct (match_text_spec _ _ Htext) as (Hne & Hplain & rest & Hs).
        destruct run as [|c' run]; [congruence | ].
        simpl in Hs. injection Hs as <- ->.
        rewrite omap_cons. cbn [key_body].
        replace (length (c :: run) - 1) with (length run) by (simpl; lia).
        rewrite finditer_parts_scan_skip, findall_keys_scan_pass.
        -- apply IH. simpl in Hlen. rewrite length_app in Hlen. lia.
        -- unfold plain in *. simpl in Hplain.
           apply andb_true_iff in Hplain as [_ H]. exact H.
      * apply IH. simpl in Hlen. lia.
Qed.

Lemma drop_while_none p (l : str) :
  match l with [] => True | c :: _ => p c = false end ->
  Py.drop_while p l = l.
Proof.
  destruct l as [|c l]; [reflexivity | ]. simpl. intros ->. reflexivity.
Qed.

(** Stripping the braces of a braced body without braces gives the
    body. *)
Lemma strip_chars_braced_plain body :
  plain body = true ->
  Py.strip_chars (py_str "{}") (Re.braced body) = body.
Proof.
  intros Hplain. unfold Py.strip_chars, Py.lstrip_by, Py.rstrip_by, Re.braced.
  set (p := fun c : ascii => existsb (Ascii.eqb c) (py_str "{}")).
  assert (Hp : forall c, c ∈ body -> p c = false).
  { intros c Hc. unfold plain in Hplain. rewrite forallb_forall in Hplain.
    specialize (Hplain c (proj1 (list_elem_of_In _ _) Hc)).
    apply negb_true_iff in Hplain. unfold Py.is_brace in Hplain.
    unfold p. simpl. rewrite orb_false_r. exact Hplain. }
  cbn [Py.drop_while]. change (p Py.open_brace) with true. cbn iota.
  destruct body as [|c body]; [reflexivity | ].
  assert (Hhead : p c = false) by (apply Hp; left).
  remember (c :: body) as l eqn:Hl.
  assert (Hlead : Py.drop_while p (l ++ [Py.close_brace])
                  = l ++ [Py.close_brace]).
  { apply drop_while_none. rewrite Hl. simpl. exact Hhead. }
  rewrite Hlead, rev_app_distr.
  change (rev [Py.close_brace] ++ rev l) with (Py.close_brace :: rev l).
  cbn [Py.drop_while]. change (p Py.close_brace) with true. cbn iota.
  rewrite drop_while_none; [apply rev_involutive | ].
  destruct (rev l) as [|c' l'] eqn:Hrev; [exact I | ].
  apply Hp. apply list_elem_of_In, in_rev. rewrite Hrev. left. reflexivity.
Qed.

Lemma unique_keys_loop_first_occurrences xs uniq :
  Template.unique_keys_loop xs (set_of uniq) uniq
  = uniq ++ filter (fun y => y ∉ uniq) (first_occurrences xs).
Proof.
  revert uniq. induction xs as [|x xs IH]; intros uniq; simpl.
  - rewrite app_nil_r. reflexivity.
  - destruct (decide (x ∈ set_of uniq)) as [Hin|Hnin].
    + unfold set_of in Hin. rewrite elem_of_list_to_set in Hin.
      rewrite IH, filter_cons_False by (intros H; exact (H Hin)).
      f_equal. symmetry. apply list_filter_filter_l.
      intros y Hy ->. exact (Hy Hin).
    + unfold set_of in Hnin. rewrite elem_of_list_to_set in Hnin.
      assert (Hset : {[x]} ∪ set_of uniq = set_of (uniq ++ [x])).
      { unfold set_of. rewrite list_to_set_app_L. simpl.
        rewrite (right_id_L ∅ (∪)). apply (comm_L (∪)). }
      rewrite Hset, IH, filter_cons_True by exact Hnin.
      rewrite <- app_assoc. simpl. f_equal. f_equal.
      rewrite list_filter_filter. apply list_filter_iff.
      intros y. rewrite elem_of_app, list_elem_of_singleton. tauto.
Qed.

Lemma parse_template_keys_first_occurrences t_raw :
  Template._parse_template_keys t_raw
  = first_occurrences (Re.findall_keys t_raw).
Proof.
  unfold Template._parse_template_keys.
  change (∅ : gset str) with (set_of []).
  rewrite unique_keys_loop_first_occurrences. simpl.
  induction (first_occurrences (Re.findall_keys t_raw)) as [|y l IH];
    [reflexivity | ].
  rewrite filter_cons_True by apply not_elem_of_nil. f_equal. exact IH.
Qed.

Lemma elem_of_first_occurrences x xs : x ∈ first_occurrences xs <-> x ∈ xs.
Proof.
  induction xs as [|y xs IH]; simpl; [reflexivity | ].
  rewrite !elem_of_cons, list_elem_of_filter, IH.
  destruct (decide (x = y)); tauto.
Qed.

(** The names of the parts are the bodies of the key matches with the
    braces at their ends stripped. *)
Lemma placeholder_names_tokens t_raw :
  placeholder_names (tokens t_raw)
  = (fun body => Py.strip_chars (py_str "{}") (Re.braced body))
      <$> Re.findall_keys t_raw.
Proof.
  unfold placeholder_names, tokens, Re.findall_keys, Re.finditer_parts.
  rewrite (scans_agree (length t_raw) t_raw) by lia.
  pose proof (finditer_parts_scan_shape 0 t_raw) as H.
  induction H as [|m ms Hm _ IH]; [reflexivity | ].
  rewrite !omap_cons.
  destruct m as [[key_match|] [text_match|]]; simpl in Hm; try contradiction.
  - destruct Hm as (body & -> & _).
    assert (Hbody : key_body (Some (Re.braced body), None) = Some body).
    { unfold key_body, Re.braced. rewrite removelast_last. reflexivity. }
    rewrite Hbody. unfold Re.braced at 1. cbn [Template.part_of_match].
    rewrite omap_cons. cbn [part_key]. rewrite fmap_cons, IH. reflexivity.
  - destruct Hm as [Hne _]. destruct text_match as [|c text_match]; [congruence | ].
    cbn [Template.part_of_match key_body]. rewrite omap_cons. cbn [part_key].
    exact IH.
Qed.

(** *** X3
    When no key of a loaded template has an opening brace, its keys are
    the names of its placeholder parts, each distinct name once, in the
    order of first occurrence. *)
Theorem load_keys_first_occurrences (t_raw : str)
    (t : TextCompletionsMappingTemplate) :
  Template.load t_raw = Ok t ->
  (forall k, k ∈ keys t -> no_opening_brace k = true) ->
  keys t = first_occurrences (placeholder_names (parts t)).
Proof.
  intros Hload Hkeys.
  destruct (load_Ok_inv _ _ Hload) as (_ & Hparts & Hk & _).
  rewrite Hk, Hparts, parse_template_keys_first_occurrences,
    placeholder_names_tokens.
  f_equal. symmetry. rewrite <- (list_fmap_id (Re.findall_keys _)) at 2.
  apply list_fmap_ext. intros i body Hbody. simpl.
  apply strip_chars_braced_plain, plain_spec.
  assert (Hin : body ∈ Re.findall_keys (Py.strip t_raw))
    by (apply list_elem_of_lookup; exists i; exact Hbody).
  split.
  - apply no_opening_brace_spec, Hkeys.
    rewrite Hk, parse_template_keys_first_occurrences.
    apply elem_of_first_occurrences, Hin.
  - unfold Re.findall_keys in Hin.
    rewrite (scans_agree (length (Py.strip t_raw))) in Hin by lia.
    apply list_elem_of_omap in Hin as (m & Hm & Hbody').
    pose proof (finditer_parts_scan_shape 0 (Py.strip t_raw)) as Hall.
    rewrite Forall_forall in Hall. specialize (Hall m Hm).
    destruct m as [[key_match|] [text_match|]]; simpl in Hall; try contradiction.
    + destruct Hall as (body0 & -> & Hclose).
      unfold key_body, Re.braced in Hbody'. rewrite removelast_last in Hbody'.
      injection Hbody' as <-. exact Hclose.
    + discriminate.
Qed.

Lemma load_keys_first_occurrences_witness :
  keys greeting_template
  = first_occurrences (placeholder_names (parts greeting_template)).
Proof.
  apply (load_keys_first_occurrences (py_str "Hello, {name}! Bye, {name}.")).
  - vm_compute. reflexivity.
  - intros k Hk. apply list_elem_of_singleton in Hk as ->. reflexivity.
Defined.

(** *** X4
    A loaded template has at least one part, no two neighbouring parts of
    the same kind, and keys without duplicates. *)
Theorem load_invariants (t_raw : str) (t : TextCompletionsMappingTemplate) :
  Template.load t_raw = Ok t ->
  parts t <> [] /\ alternates (parts t) = true /\ NoDup (keys t).
Proof.
  intros H. destruct (load_Ok_inv t_raw t H) as (_ & _ & Hkeys & Hne & Halt).
  repeat split; [exact Hne | exact Halt | ].
  rewrite Hkeys. apply parse_template_keys_NoDup.
Qed.

Lemma load_invariants_witness :
  parts greeting_template <> [] /\ alternates (parts greeting_template) = true
  /\ NoDup (keys greeting_template).
Proof.
  apply (load_invariants (py_str "Hello, {name}! Bye, {name}.")).
  vm_compute. reflexivity.
Defined.

(** *** X5
    [load] returns a template exactly when the trimmed string gives at
    least one part and no two neighbouring parts of the same kind; the
    template then has these parts and the trimmed string as its raw form.
    Its only exceptions are the two format errors. *)
Theorem load_returns_or_format_error (t_raw : str) :
  ((exists t, Template.load t_raw = Ok t)
   <-> tokens (Py.strip t_raw) <> []
       /\ alternates (tokens (Py.strip t_raw)) = true)
  /\ (forall t, Template.load t_raw = Ok t ->
        raw t = Py.strip t_raw /\ parts t = tokens (Py.strip t_raw))
  /\ (forall e, Template.load t_raw = Raise e ->
        e = ValueError Template.empty_message
        \/ e = ValueError Template.alternate_message).
Proof.
  split; [ | split ].
  - split.
    + intros [t Hload].
      destruct (load_Ok_inv _ _ Hload) as (_ & Hparts & _ & Hne & Halt).
      rewrite <- Hparts. split; assumption.
    + intros [Hne Halt]. unfold Template.load.
      rewrite parse_template_into_parts_spec, Halt.
      destruct (tokens (Py.strip t_raw)); [congruence | ].
      eexists. reflexivity.
  - intros t Hload. destruct (load_Ok_inv _ _ Hload) as (Hraw & Hparts & _).
    split; assumption.
  - intros e. unfold Template.load. rewrite parse_template_into_parts_spec.
    destruct (alternates (tokens (Py.strip t_raw))).
    + destruct (tokens (Py.strip t_raw)); simpl; [ | discriminate ].
      intros [= <-]. left. reflexivity.
    + simpl. intros [= <-]. right. reflexivity.
Qed.

Lemma load_returns_or_format_error_witness :
  raw greeting_template = Py.strip (py_str " Hello, {name}! Bye, {name}. ")
  /\ parts greeting_template
     = tokens (Py.strip (py_str " Hello, {name}! Bye, {name}. ")).
Proof.
  apply (proj1 (proj2 (load_returns_or_format_error
                         (py_str " Hello, {name}! Bye, {name}. ")))).
  vm_compute. reflexivity.
Defined.

(* ===================================================================== *)
(** * More on filling                                                     *)
(* ===================================================================== *)

Lemma fill_loop_agree (t_raw : str) (ks : list str) (v1 v2 : pydict)
    (filled : str) :
  (forall k, k ∈ ks -> v1 !! Some k = v2 !! Some k) ->
  Template.fill_loop t_raw ks v1 filled = Template.fill_loop t_raw ks v2 filled.
Proof.
  revert filled. induction ks as [|k ks IH]; intros filled H; [reflexivity | ].
  simpl. rewrite <- (H k) by (left).
  destruct (v1 !! Some k); [ | reflexivity ].
  apply IH. intros k' Hk'. apply H. right. exact Hk'.
Qed.

Lemma fill_loop_Ok (t_raw : str) (ks : list str) (values : pydict)
    (filled : str) :
  (forall k, k ∈ ks -> is_Some (values !! Some k)) ->
  exists text, Template.fill_loop t_raw ks values filled = Ok text.
Proof.
  revert filled. induction ks as [|k ks IH]; intros filled H; simpl.
  - exists filled. reflexivity.
  - destruct (H k ltac:(left)) as [v Hv]. rewrite Hv.
    apply IH. intros k' Hk'. apply H. right. exact Hk'.
Qed.

(** *** X6
    [fill] returns a text exactly when every key of the template has a
    value; whatever else the mapping holds, and however the template is
    braced, it raises nothing but the error about a missing key. *)
Theorem fill_returns_iff_keys_provided
    (t : TextCompletionsMappingTemplate) (values : pydict) :
  ((exists text, Template.fill t values = Ok text)
   <-> forall k, k ∈ keys t -> is_Some (values !! Some k))
  /\ (forall e, Template.fill t values = Raise e ->
        exists k, k ∈ keys t /\ values !! Some k = None
                  /\ e = ValueError (Template.missing_key_message k (raw t))).
Proof.
  assert (Hraise : forall ks filled e,
             Template.fill_loop (raw t) ks values filled = Raise e ->
             exists k, k ∈ ks /\ values !! Some k = None
                       /\ e = ValueError (Template.missing_key_message k (raw t))).
  { induction ks as [|k ks IH]; intros filled e; simpl; [discriminate | ].
    destruct (values !! Some k) as [v|] eqn:Hk.
    - intros H. destruct (IH _ _ H) as (k' & Hin & Hnone & He).
      exists k'. repeat split; [right; exact Hin | exact Hnone | exact He].
    - intros [= <-]. exists k. repeat split; [left | exact Hk]. }
  split; [ | intros e; apply Hraise ].
  split.
  - intros [text Htext] k Hk.
    destruct (values !! Some k) as [v|] eqn:Hv; [eexists; reflexivity | ].
    destruct (fill_loop_missing (raw t) (keys t) values (raw t))
      as (k' & _ & _ & Hfill); [exists k; split; assumption | ].
    unfold Template.fill in Htext. congruence.
  - apply fill_loop_Ok.
Qed.

Lemma fill_returns_iff_keys_provided_witness :
  (exists text, Template.fill pair_template pair_values = Ok text)
  /\ exists k, k ∈ keys pair_template
               /\ greeting_values !! Some k = None
               /\ ValueError
                    (py_str "Key city missing from dictionary for template '{city}, {country}'")
                  = ValueError (Template.missing_key_message k (raw pair_template)).
Proof.
  split.
  - apply (proj1 (fill_returns_iff_keys_provided pair_template pair_values)).
    intros k Hk.
    destruct (provides_without_opening_brace_spec pair_values
                (keys pair_template) ltac:(vm_compute; reflexivity) k Hk)
      as (v & -> & _).
    eexists. reflexivity.
  - apply (proj2 (fill_returns_iff_keys_provided pair_template greeting_values)).
    vm_compute. reflexivity.
Defined.

(** *** X7
    [fill] looks at the values of the keys of the template only: two
    mappings that agree on them give the same text or the same error, and
    entries under other keys are ignored. *)
Theorem fill_depends_on_keys_only
    (t : TextCompletionsMappingTemplate) (v1 v2 : pydict) :
  ((forall k, k ∈ keys t -> v1 !! Some k = v2 !! Some k) ->
   Template.fill t v1 = Template.fill t v2)
  /\ Template.fill t v1 = Template.fill t (restrict_to_keys (keys t) v1).
Proof.
  split.
  - apply fill_loop_agree.
  - apply fill_loop_agree. intros k Hk.
    rewrite restrict_to_keys_lookup, decide_True by exact Hk. reflexivity.
Qed.

Lemma fill_depends_on_keys_only_witness :
  Template.fill greeting_template greeting_values
  = Template.fill greeting_template
      (dict_of_items [ (Some (py_str "name"), py_str "World") ]).
Proof.
  apply (proj1 (fill_depends_on_keys_only greeting_template greeting_values
                  (dict_of_items [ (Some (py_str "name"), py_str "World") ]))).
  intros k Hk. apply list_elem_of_singleton in Hk as ->. reflexivity.
Defined.

(* ===================================================================== *)
(** * More on parsing                                                     *)
(* ===================================================================== *)

Lemma placeholder_names_cons p ps :
  placeholder_names (p :: ps)
  = match part_key p with
    | Some k => k :: placeholder_names ps
    | None => placeholder_names ps
    end.
Proof. reflexivity. Qed.

(** The loop of [parse], from a placeholder on, stores a value under the
    name of every placeholder part and under no other key. *)
Lemma parse_loop_dom (ps : list TextCompletionsMappingTemplatePart)
    (cur : str) (d d' : pydict) :
  alternates ps = true -> starts_with_placeholder ps = true ->
  Template.parse_loop ps cur d = Ok d' ->
  dom d' = dom d ∪ list_to_set (Some <$> placeholder_names ps).
Proof.
  revert cur d. induction ps as [| p | p q ps IH] using list_pair_ind;
    intros cur d Halt Hstart.
  - simpl. intros [= <-]. symmetry. apply (right_id_L ∅ (∪)).
  - unfold starts_with_placeholder, is_placeholder in Hstart.
    cbn [Template.parse_loop]. rewrite placeholder_names_cons.
    destruct (part_key p) as [k|]; [ | discriminate ].
    intros [= <-]. rewrite dom_insert_L. simpl.
    rewrite (right_id_L ∅ (∪)). apply (comm_L (∪)).
  - pose proof (alternates_cons_inv _ _ Halt) as (Halt' & _ & Hq).
    specialize (Hq Hstart).
    pose proof (alternates_cons_inv _ _ Halt') as (Halt'' & Hps & _).
    assert (Hqlit : is_placeholder q = false)
      by (unfold is_placeholder; rewrite Hq; reflexivity).
    specialize (Hps Hqlit).
    unfold starts_with_placeholder, is_placeholder in Hstart.
    cbn [Template.parse_loop]. rewrite !placeholder_names_cons, Hq.
    destruct (part_key p) as [k|]; [ | discriminate ].
    destruct (Py.find cur (part_raw q)) as [i|]; [ | discriminate ].
    intros H. rewrite (IH _ _ Halt'' Hps H), dom_insert_L, fmap_cons.
    simpl. rewrite (comm_L (∪) {[Some k]} (dom d)), <- (assoc_L (∪)).
    reflexivity.
Qed.

(** *** X8
    When [parse] returns for a loaded template, the mapping it returns
    has a value for the name of every placeholder part and no other
    entry. *)
Theorem parse_domain (t_raw : str) (t : TextCompletionsMappingTemplate)
    (text : str) (d : pydict) :
  Template.load t_raw = Ok t ->
  Template.parse t text = Ok d ->
  dom d = list_to_set (Some <$> placeholder_names (parts t)).
Proof.
  intros Hload. destruct (load_Ok_inv _ _ Hload) as (_ & _ & _ & Hne & Halt).
  unfold Template.parse.
  destruct (parts t) as [|p0 ps] eqn:Hparts; [congruence | ].
  cbn [drop].
  destruct (part_key p0) as [k|] eqn:Hk.
  - intros H. apply parse_loop_dom in H; [ | exact Halt | ].
    + rewrite H, dom_empty_L. apply (left_id_L ∅ (∪)).
    + unfold starts_with_placeholder, is_placeholder. rewrite Hk. reflexivity.
  - destruct (negb (Py.startswith text (part_raw p0))); [discriminate | ].
    pose proof (alternates_cons_inv _ _ Halt) as (Halt' & Hps & _).
    intros H. apply parse_loop_dom in H; [ | exact Halt' | ].
    + rewrite H, dom_empty_L, placeholder_names_cons, Hk.
      apply (left_id_L ∅ (∪)).
    + apply Hps. unfold is_placeholder. rewrite Hk. reflexivity.
Qed.

Lemma parse_domain_witness :
  dom (dict_of_items [ (Some (py_str "city"), py_str "Oslo");
                       (Some (py_str "country"), py_str "Norway") ])
  = list_to_set (Some <$> placeholder_names (parts pair_template)).
Proof.
  apply (parse_domain (py_str "{city}, {country}") pair_template
           (py_str "Oslo, Norway")); vm_compute; reflexivity.
Defined.

Lemma find_Some_split s sub i :
  Py.find s sub = Some i ->
  s = take i s ++ sub ++ drop (i + length sub) s.
Proof.
  revert i. induction s as [|c s IH]; intros i; rewrite find_unfold.
  - destruct (Py.startswith [] sub) eqn:Hstart; [ | discriminate ].
    intros [= <-]. apply startswith_true in Hstart as [r Hr].
    destruct sub; [reflexivity | discriminate].
  - destruct (Py.startswith (c :: s) sub) eqn:Hstart.
    + intros [= <-]. apply startswith_true in Hstart as [r Hr].
      rewrite Hr. cbn [take Nat.add app]. rewrite drop_app_length. reflexivity.
    + destruct (Py.find s sub) as [j|]; [ | discriminate ].
      simpl. intros [= <-]. simpl. f_equal. apply IH. reflexivity.
Qed.

(** The loop of [parse], from a placeholder on and with distinct names,
    splits the text into the values it stores and the literals between
    them; what follows a last literal is left over. *)
Lemma parse_loop_render_inv (ps : list TextCompletionsMappingTemplatePart)
    (cur : str) (d d' : pydict) :
  alternates ps = true -> starts_with_placeholder ps = true ->
  NoDup (placeholder_names ps) ->
  Template.parse_loop ps cur d = Ok d' ->
  (exists rest,
     cur = render d' ps ++ rest
     /\ forall p, last ps = Some p -> is_placeholder p = true -> rest = [])
  /\ forall k, k ∉ placeholder_names ps -> d' !! Some k = d !! Some k.
Proof.
  revert cur d. induction ps as [| p | p q ps IH] using list_pair_ind;
    intros cur d Halt Hstart Hnd.
  - simpl. intros [= <-]. split; [ | reflexivity ].
    exists cur. split; [reflexivity | discriminate].
  - unfold starts_with_placeholder, is_placeholder in Hstart.
    cbn [Template.parse_loop]. rewrite render_cons, placeholder_names_cons.
    destruct (part_key p) as [k|]; [ | discriminate ].
    intros [= <-]. unfold value_of. rewrite lookup_insert_eq. simpl.
    split.
    + exists []. split; [ | reflexivity ].
      unfold render. simpl. rewrite !app_nil_r. reflexivity.
    + intros k' Hk'. apply lookup_insert_ne. intros [= ->]. apply Hk'. left.
  - pose proof (alternates_cons_inv _ _ Halt) as (Halt' & _ & Hq).
    specialize (Hq Hstart).
    pose proof (alternates_cons_inv _ _ Halt') as (Halt'' & Hps & _).
    assert (Hqlit : is_placeholder q = false)
      by (unfold is_placeholder; rewrite Hq; reflexivity).
    specialize (Hps Hqlit).
    unfold starts_with_placeholder, is_placeholder in Hstart.
    cbn [Template.parse_loop].
    rewrite !render_cons, !placeholder_names_cons, Hq in *.
    destruct (part_key p) as [k|]; [ | discriminate ].
    apply NoDup_cons in Hnd as [Hk Hnd].
    destruct (Py.find cur (part_raw q)) as [i|] eqn:Hfind; [ | discriminate ].
    intros H.
    destruct (IH _ _ Halt'' Hps Hnd H) as [(rest & Hrest & Hlast) Hkeep].
    split.
    + exists rest. split.
      * unfold value_of at 1. rewrite (Hkeep k Hk), lookup_insert_eq. simpl.
        rewrite <- !app_assoc, <- Hrest. apply find_Some_split, Hfind.
      * intros p' Hp' Hph. destruct ps as [|r ps].
        -- simpl in Hp'. injection Hp' as <-. congruence.
        -- apply (Hlast p'); [ | exact Hph ]. exact Hp'.
    + intros k' Hk'. apply not_elem_of_cons in Hk' as [Hne Hk'].
      rewrite (Hkeep k' Hk'). apply lookup_insert_ne. congruence.
Qed.

Lemma render_elem values ps c :
  c ∈ render values ps ->
  exists p, p ∈ ps
    /\ c ∈ match part_key p with
           | None => part_raw p
           | Some k => value_of values k
           end.
Proof.
  induction ps as [|p ps IH]; [intros H; inversion H | ].
  rewrite render_cons. intros [H|H]%elem_of_app.
  - exists p. split; [left | exact H].
  - destruct (IH H) as (p' & Hin & Hc). exists p'. split; [right; exact Hin | exact Hc].
Qed.

Lemma elem_render values ps p c :
  p ∈ ps ->
  c ∈ match part_key p with
      | None => part_raw p
      | Some k => value_of values k
      end ->
  c ∈ render values ps.
Proof.
  induction ps as [|p' ps IH]; intros Hp Hc; [inversion Hp | ].
  rewrite render_cons. apply elem_of_app.
  apply elem_of_cons in Hp as [->|Hp]; [left; exact Hc | right].
  apply IH; assumption.
Qed.

(** *** X9
    Parsing is undone by filling.  For a loaded template whose
    placeholder names are distinct and a text that trimming leaves as it
    is, the mapping that [parse] returns, written into the parts, gives
    back the text up to what follows the last literal, and all of the text
    when the template ends with a placeholder.  If moreover every brace of
    the template belongs to a placeholder and the text has no opening
    brace, [fill] returns exactly that. *)
Theorem parse_then_fill (t_raw : str) (t : TextCompletionsMappingTemplate)
    (text : str) (d : pydict) :
  Template.load t_raw = Ok t ->
  NoDup (placeholder_names (parts t)) ->
  Py.strip text = text ->
  Template.parse t text = Ok d ->
  exists rest,
    text = render d (parts t) ++ rest
    /\ (forall p, last (parts t) = Some p -> is_placeholder p = true -> rest = [])
    /\ (well_braced t = true -> no_opening_brace text = true ->
        Template.fill t d = Ok (render d (parts t))).
Proof.
  intros Hload Hnd Hstrip Hparse.
  pose proof (parse_domain _ _ _ _ Hload Hparse) as Hdom.
  destruct (load_Ok_inv _ _ Hload) as (_ & _ & _ & Hne & Halt).
  assert (Hsplit : exists rest,
             text = render d (parts t) ++ rest
             /\ forall p, last (parts t) = Some p -> is_placeholder p = true ->
                          rest = []).
  { unfold Template.parse in Hparse. rewrite Hstrip in Hparse.
    destruct (parts t) as [|p0 ps] eqn:Hparts; [congruence | ].
    change (drop 1 (p0 :: ps)) with ps in Hparse.
    change (drop 0 (p0 :: ps)) with (p0 :: ps) in Hparse.
    destruct (part_key p0) as [k|] eqn:Hk.
    - apply parse_loop_render_inv in Hparse as [Hrest _]; [exact Hrest | exact Halt | | exact Hnd].
      unfold starts_with_placeholder, is_placeholder. rewrite Hk. reflexivity.
    - destruct (Py.startswith text (part_raw p0)) eqn:Hstart; [ | discriminate ].
      simpl in Hparse. apply startswith_true in Hstart as [r Hr].
      rewrite Hr, drop_app_length in Hparse.
      pose proof (alternates_cons_inv _ _ Halt) as (Halt' & Hps & _).
      rewrite placeholder_names_cons, Hk in Hnd.
      apply parse_loop_render_inv in Hparse as [(rest & Hrest & Hlast) _];
        [ | exact Halt' | | exact Hnd ].
      + exists rest. split.
        * rewrite render_cons, Hk, <- app_assoc, <- Hrest. exact Hr.
        * intros p Hp Hph. destruct ps as [|q ps].
          -- simpl in Hp. injection Hp as <-.
             unfold is_placeholder in Hph. rewrite Hk in Hph. discriminate.
          -- apply (Hlast p); assumption.
      + apply Hps. unfold is_placeholder. rewrite Hk. reflexivity. }
  destruct Hsplit as (rest & Htext & Hlast).
  exists rest. split; [exact Htext | ]. split; [exact Hlast | ].
  intros Hwb Hopen. apply fill_render; [exact Hwb | ].
  destruct (well_braced_inv t Hwb) as (_ & _ & Hsame & _).
  intros k Hk. apply Hsame in Hk.
  assert (Hsome : is_Some (d !! Some k)).
  { apply elem_of_dom. rewrite Hdom. apply elem_of_list_to_set.
    apply list_elem_of_fmap. exists k. split; [reflexivity | exact Hk]. }
  destruct Hsome as [v Hv]. exists v. split; [exact Hv | ].
  apply no_opening_brace_spec. intros Hin.
  apply no_opening_brace_spec in Hopen. apply Hopen.
  rewrite Htext. apply elem_of_app. left.
  apply list_elem_of_omap in Hk as (p & Hp & Hkey).
  apply (elem_render d (parts t) p); [exact Hp | ].
  rewrite Hkey. unfold value_of. rewrite Hv. exact Hin.
Qed.

Lemma parse_then_fill_witness :
  exists rest,
    py_str "Oslo, Norway"
    = render (dict_of_items [ (Some (py_str "city"), py_str "Oslo");
                              (Some (py_str "country"), py_str "Norway") ])
        (parts pair_template) ++ rest
    /\ rest = []
    /\ Template.fill pair_template
         (dict_of_items [ (Some (py_str "city"), py_str "Oslo");
                          (Some (py_str "country"), py_str "Norway") ])
       = Ok (py_str "Oslo, Norway").
Proof.
  destruct (parse_then_fill (py_str "{city}, {country}") pair_template
              (py_str "Oslo, Norway")
              (dict_of_items [ (Some (py_str "city"), py_str "Oslo");
                               (Some (py_str "country"), py_str "Norway") ]))
    as (rest & Htext & Hlast & Hfill).
  - vm_compute. reflexivity.
  - unfold placeholder_names. simpl. apply NoDup_cons.
    split; [ | apply NoDup_singleton ].
    intros H. apply list_elem_of_singleton in H. discriminate.
  - vm_compute. reflexivity.
  - vm_compute. reflexivity.
  - exists rest. split; [exact Htext | ].
    split.
    + apply (Hlast {| part_raw := py_str "{country}";
                      part_key := Some (py_str "country") |}); reflexivity.
    + rewrite Hfill; [ | vm_compute; reflexivity.. ].
      f_equal.
Defined.

Lemma startswith_take s sub n :
  Py.startswith (take n s) sub = true -> Py.startswith s sub = true.
Proof.
  intros [r Hr]%startswith_true. apply startswith_true.
  exists (r ++ drop n s). rewrite app_assoc, <- Hr. symmetry. apply take_drop.
Qed.

(** The text before the first occurrence holds no occurrence. *)
Lemma find_first s sub i :
  sub <> [] -> Py.find s sub = Some i -> Py.find (take i s) sub = None.
Proof.
  intros Hsub. revert i. induction s as [|c s IH]; intros i; rewrite find_unfold.
  - destruct (Py.startswith [] sub) eqn:Hstart; [ | discriminate ].
    apply startswith_true in Hstart as [r Hr]. destruct sub; [congruence | discriminate].
  - destruct (Py.startswith (c :: s) sub) eqn:Hstart.
    + intros [= <-]. cbn [take].
      destruct sub; [congruence | reflexivity].
    + destruct (Py.find s sub) as [j|] eqn:Hj; [ | discriminate ].
      simpl. intros [= <-]. cbn [take]. rewrite find_unfold.
      destruct (Py.startswith (c :: take j s) sub) eqn:Hstart'.
      * change (c :: take j s) with (take (S j) (c :: s)) in Hstart'.
        apply startswith_take in Hstart'. congruence.
      * rewrite (IH j eq_refl). reflexivity.
Qed.

Lemma parse_loop_no_separator (ps : list TextCompletionsMappingTemplatePart)
    (cur : str) (d d' : pydict) :
  alternates ps = true -> starts_with_placeholder ps = true ->
  NoDup (placeholder_names ps) ->
  (forall q, q ∈ ps -> part_key q = None -> part_raw q <> []) ->
  Template.parse_loop ps cur d = Ok d' ->
  forall j p q k,
    ps !! j = Some p -> ps !! S j = Some q -> part_key p = Some k ->
    contains (value_of d' k) (part_raw q) = false.
Proof.
  revert cur d. induction ps as [| p0 | p0 q0 ps IH] using list_pair_ind;
    intros cur d Halt Hstart Hnd Hlit Hparse j p q k Hp Hq Hk.
  - discriminate.
  - destruct j; discriminate.
  - pose proof (alternates_cons_inv _ _ Halt) as (Halt' & _ & Hq0).
    specialize (Hq0 Hstart).
    pose proof (alternates_cons_inv _ _ Halt') as (Halt'' & Hps & _).
    assert (Hqlit : is_placeholder q0 = false)
      by (unfold is_placeholder; rewrite Hq0; reflexivity).
    specialize (Hps Hqlit).
    unfold starts_with_placeholder, is_placeholder in Hstart.
    cbn [Template.parse_loop] in Hparse.
    rewrite !placeholder_names_cons, Hq0 in Hnd.
    destruct (part_key p0) as [k0|] eqn:Hk0; [ | discriminate ].
    apply NoDup_cons in Hnd as [Hnotin Hnd].
    destruct (Py.find cur (part_raw q0)) as [i|] eqn:Hfind; [ | discriminate ].
    destruct j as [|[|j]].
    + simpl in Hp, Hq. injection Hp as <-. injection Hq as <-.
      assert (k = k0) by congruence. subst k.
      destruct (parse_loop_render_inv _ _ _ _ Halt'' Hps Hnd Hparse) as [_ Hkeep].
      unfold contains, value_of. rewrite (Hkeep k0 Hnotin), lookup_insert_eq.
      simpl. rewrite (find_first _ _ _ (Hlit q0 ltac:(right; left) Hq0) Hfind).
      reflexivity.
    + simpl in Hp. injection Hp as <-. congruence.
    + assert (Hlit' : forall q', q' ∈ ps -> part_key q' = None -> part_raw q' <> [])
        by (intros q' Hq'; apply Hlit; right; right; exact Hq').
      exact (IH _ _ Halt'' Hps Hnd Hlit' Hparse j p q k Hp Hq Hk).
Qed.

(** *** X10
    A parsed value stops before the separator: for a loaded template
    with distinct placeholder names, the value that [parse] returns for a
    placeholder does not contain the literal that follows the
    placeholder. *)
Theorem parse_value_excludes_separator (t_raw : str)
    (t : TextCompletionsMappingTemplate) (text : str) (d : pydict) :
  Template.load t_raw = Ok t ->
  NoDup (placeholder_names (parts t)) ->
  Template.parse t text = Ok d ->
  forall j p q k,
    parts t !! j = Some p -> parts t !! S j = Some q -> part_key p = Some k ->
    contains (value_of d k) (part_raw q) = false.
Proof.
  intros Hload Hnd Hparse j p q k Hp Hq Hk.
  destruct (load_Ok_inv _ _ Hload) as (_ & Hparts & _ & Hne & Halt).
  assert (Hlit : forall q, q ∈ parts t -> part_key q = None -> part_raw q <> []).
  { intros q' Hq' Hkey. pose proof (tokens_shape (Py.strip t_raw)) as Hall.
    rewrite <- Hparts, Forall_forall in Hall. specialize (Hall q' Hq').
    unfold part_shape in Hall. rewrite Hkey in Hall. apply Hall. }
  unfold Template.parse in Hparse.
  destruct (parts t) as [|p0 ps] eqn:Hpt; [congruence | ].
  change (drop 1 (p0 :: ps)) with ps in Hparse.
  change (drop 0 (p0 :: ps)) with (p0 :: ps) in Hparse.
  destruct (part_key p0) as [k0|] eqn:Hk0.
  - assert (Hstart : starts_with_placeholder (p0 :: ps) = true)
      by (unfold starts_with_placeholder, is_placeholder; rewrite Hk0; reflexivity).
    exact (parse_loop_no_separator _ _ _ _ Halt Hstart Hnd Hlit Hparse j p q k
             Hp Hq Hk).
  - destruct (negb (Py.startswith text (part_raw p0))); [discriminate | ].
    pose proof (alternates_cons_inv _ _ Halt) as (Halt' & Hps & _).
    rewrite placeholder_names_cons, Hk0 in Hnd.
    destruct j as [|j]; [simpl in Hp; injection Hp as <-; congruence | ].
    assert (Hstart : starts_with_placeholder ps = true)
      by (apply Hps; unfold is_placeholder; rewrite Hk0; reflexivity).
    assert (Hlit' : forall q', q' ∈ ps -> part_key q' = None -> part_raw q' <> [])
      by (intros q' Hq'; apply Hlit; right; exact Hq').
    exact (parse_loop_no_separator _ _ _ _ Halt' Hstart Hnd Hlit' Hparse j p q k
             Hp Hq Hk).
Qed.

Lemma parse_value_excludes_separator_witness :
  contains
    (value_of (dict_of_items [ (Some (py_str "city"), py_str "Oslo");
                               (Some (py_str "country"), py_str "Norway, Europe") ])
       (py_str "city"))
    (py_str ", ") = false.
Proof.
  apply (parse_value_excludes_separator (py_str "{city}, {country}")
           pair_template (py_str "Oslo, Norway, Europe")
           (dict_of_items [ (Some (py_str "city"), py_str "Oslo");
                            (Some (py_str "country"), py_str "Norway, Europe") ])
           ltac:(vm_compute; reflexivity))
    with (j := 0)
         (p := {| part_raw := py_str "{city}"; part_key := Some (py_str "city") |})
         (q := {| part_raw := py_str ", "; part_key := None |});
    try reflexivity.
  unfold placeholder_names. simpl. apply NoDup_cons.
  split; [ | apply NoDup_singleton ].
  intros H. apply list_elem_of_singleton in H. discriminate.
Defined.

(** *** X11
    For a template that starts with a placeholder, [parse] sees the text
    only through its trimmed form: whitespace around the text changes
    neither the mapping returned nor the error raised. *)
Theorem parse_trims_when_placeholder_first
    (t : TextCompletionsMappingTemplate) (text : str) :
  starts_with_placeholder (parts t) = true ->
  Template.parse t text = Template.parse t (Py.strip text).
Proof.
  unfold Template.parse, starts_with_placeholder, is_placeholder.
  rewrite strip_idem.
  destruct (parts t) as [|p0 ps]; [reflexivity | ].
  destruct (part_key p0); [reflexivity | discriminate].
Qed.

Lemma parse_trims_when_placeholder_first_witness :
  Template.parse pair_template (py_str "  Oslo, Norway  ")
  = Template.parse pair_template (py_str "Oslo, Norway").
Proof.
  rewrite (parse_trims_when_placeholder_first pair_template
             (py_str "  Oslo, Norway  ")) by reflexivity.
  reflexivity.
Defined.

(* ===================================================================== *)
(** * More on records and record sets                                     *)
(* ===================================================================== *)

(** *** X12
    Record concatenation is associative, and concatenating the empty
    record on either side changes nothing. *)
Theorem example_add_assoc_identity (a b c : SchematizedTextCorpusExample) :
  Example.add (Example.add a b) c = Example.add a (Example.add b c)
  /\ _field_values (Example.add a {| _field_values := ∅ |}) = _field_values a
  /\ _field_values (Example.add {| _field_values := ∅ |} a) = _field_values a.
Proof.
  unfold Example.add. simpl. split; [ | split ].
  - f_equal. apply (assoc_L (∪)).
  - apply (left_id_L ∅ (∪)).
  - apply (right_id_L ∅ (∪)).
Qed.

(** What [join] returns when it returns a record set. *)
Lemma join_Ok_iff (c1 c2 joined : SchematizedTextCorpus) :
  Corpus.join c1 c2 = Ok joined
  <-> (forall f, f ∈ fields c1 -> f ∉ fields c2)
      /\ Corpus.len c1 = Corpus.len c2
      /\ joined = {| fields := fields c1 ++ fields c2;
                     _examples := zip_with Example.add (_examples c1)
                                    (_examples c2) |}.
Proof.
  unfold Corpus.join.
  destruct (0 <? size (set_of (fields c1) ∩ set_of (fields c2))) eqn:Hcommon.
  - apply Nat.ltb_lt, set_of_common in Hcommon as (f & Hf1 & Hf2).
    split; [discriminate | ]. intros (Hdisj & _). exfalso. exact (Hdisj f Hf1 Hf2).
  - apply Nat.ltb_ge in Hcommon.
    assert (Hdisj : forall f, f ∈ fields c1 -> f ∉ fields c2).
    { intros f Hf1 Hf2.
      assert (0 < size (set_of (fields c1) ∩ set_of (fields c2)))
        by (apply set_of_common; exists f; split; assumption).
      lia. }
    destruct (Corpus.len c1 =? Corpus.len c2) eqn:Hrows; simpl.
    + apply Nat.eqb_eq in Hrows. rewrite (join_examples_Ok c1 c2 Hrows). simpl.
      split.
      * intros [= <-]. repeat split; assumption.
      * intros (_ & _ & ->). reflexivity.
    + apply Nat.eqb_neq in Hrows. split; [discriminate | ].
      intros (_ & Hlen & _). contradiction.
Qed.

Lemma elem_of_zip_with_add xs ys r :
  r ∈ zip_with Example.add xs ys ->
  exists x y, x ∈ xs /\ y ∈ ys /\ r = Example.add x y.
Proof.
  intros H. apply list_elem_of_lookup in H as [i Hi].
  apply lookup_zip_with_Some in Hi as (x & y & -> & Hx & Hy).
  exists x, y. repeat split; apply list_elem_of_lookup; eexists; eassumption.
Qed.

(** *** X13
    [join] keeps the invariant of record sets and every value: if in each
    operand the field names are distinct and every record has exactly the
    fields of its record set, the same holds of the result, and the record
    at each position of the result holds under each field of either
    operand the value that the operand's record holds. *)
Theorem join_keeps_schema_and_values (c1 c2 joined : SchematizedTextCorpus) :
  schema_ok c1 -> schema_ok c2 ->
  Corpus.join c1 c2 = Ok joined ->
  schema_ok joined
  /\ forall i r1 r2 r,
       _examples c1 !! i = Some r1 -> _examples c2 !! i = Some r2 ->
       _examples joined !! i = Some r ->
       (forall f, f ∈ fields c1 ->
          _field_values r !! Some f = _field_values r1 !! Some f)
       /\ (forall f, f ∈ fields c2 ->
             _field_values r !! Some f = _field_values r2 !! Some f).
Proof.
  intros [Hnd1 Hdom1] [Hnd2 Hdom2] Hjoin.
  apply join_Ok_iff in Hjoin as (Hdisj & Hlen & ->). simpl. split.
  - split; simpl.
    + apply NoDup_app. repeat split; assumption.
    + intros r Hr. apply elem_of_zip_with_add in Hr as (x & y & Hx & Hy & ->).
      simpl. rewrite dom_union_L, (Hdom1 x Hx), (Hdom2 y Hy), fmap_app,
        list_to_set_app_L.
      apply (comm_L (∪)).
  - intros i r1 r2 r H1 H2 Hr.
    rewrite lookup_zip_with, H1 in Hr. simpl in Hr. rewrite H2 in Hr.
    simpl in Hr. injection Hr as <-. simpl. split.
    + intros f Hf. apply lookup_union_r. apply not_elem_of_dom.
      rewrite (Hdom2 r2) by (apply list_elem_of_lookup; eexists; exact H2).
      rewrite elem_of_list_to_set, list_elem_of_fmap.
      intros (f' & [= <-] & Hf'). exact (Hdisj f Hf Hf').
    + intros f Hf.
      assert (Hsome : is_Some (_field_values r2 !! Some f)).
      { apply elem_of_dom.
        rewrite (Hdom2 r2) by (apply list_elem_of_lookup; eexists; exact H2).
        apply elem_of_list_to_set, list_elem_of_fmap.
        exists f. split; [reflexivity | exact Hf]. }
      destruct Hsome as [v Hv]. rewrite Hv.
      apply lookup_union_Some_l. exact Hv.
Qed.

Lemma demo_corpus_schema_ok : schema_ok demo_corpus /\ schema_ok demo_answers.
Proof.
  split; (split; [apply NoDup_singleton | ]);
    intros r Hr; apply list_elem_of_singleton in Hr as ->;
    vm_compute; reflexivity.
Qed.

Lemma join_keeps_schema_and_values_witness :
  exists joined,
    Corpus.join demo_corpus demo_answers = Ok joined /\ schema_ok joined.
Proof.
  destruct (Corpus.join demo_corpus demo_answers) as [joined|] eqn:Hjoin;
    [ | vm_compute in Hjoin; discriminate ].
  exists joined. split; [reflexivity | ].
  apply (join_keeps_schema_and_values demo_corpus demo_answers joined
           (proj1 demo_corpus_schema_ok) (proj2 demo_corpus_schema_ok) Hjoin).
Defined.

Lemma zip_with_add_assoc xs ys zs :
  zip_with Example.add (zip_with Example.add xs ys) zs
  = zip_with Example.add xs (zip_with Example.add ys zs).
Proof.
  revert ys zs. induction xs as [|x xs IH]; intros [|y ys] [|z zs];
    try reflexivity.
  simpl. f_equal; [ | apply IH ].
  unfold Example.add. simpl. f_equal. apply (assoc_L (∪)).
Qed.

(** *** X14
    Joins compose in either order: joining the join of two record sets
    with a third returns a record set exactly when joining the first with
    the join of the other two does, and then both return the same one. *)
Theorem join_assoc (c1 c2 c3 joined : SchematizedTextCorpus) :
  (c12 ← Corpus.join c1 c2; Corpus.join c12 c3) = Ok joined
  <-> (c23 ← Corpus.join c2 c3; Corpus.join c1 c23) = Ok joined.
Proof.
  rewrite !bind_Ok. split.
  - intros (c12 & H12 & H).
    apply join_Ok_iff in H12 as (Hd12 & Hl12 & ->).
    apply join_Ok_iff in H as (Hd & Hl & ->). simpl in *.
    unfold Corpus.len in *. simpl in *. rewrite length_zip_with in Hl.
    exists {| fields := fields c2 ++ fields c3;
              _examples := zip_with Example.add (_examples c2) (_examples c3) |}.
    split; apply join_Ok_iff; simpl.
    + split; [ | split; [unfold Corpus.len; lia | reflexivity] ].
      intros f Hf. apply Hd, elem_of_app. right. exact Hf.
    + unfold Corpus.len. simpl. rewrite length_zip_with.
      split; [ | split; [lia | ] ].
      * intros f Hf [H2|H3]%elem_of_app; [exact (Hd12 f Hf H2) | ].
        apply (Hd f); [apply elem_of_app; left; exact Hf | exact H3].
      * rewrite <- app_assoc, zip_with_add_assoc. reflexivity.
  - intros (c23 & H23 & H).
    apply join_Ok_iff in H23 as (Hd23 & Hl23 & ->).
    apply join_Ok_iff in H as (Hd & Hl & ->). simpl in *.
    unfold Corpus.len in *. simpl in *. rewrite length_zip_with in Hl.
    exists {| fields := fields c1 ++ fields c2;
              _examples := zip_with Example.add (_examples c1) (_examples c2) |}.
    split; apply join_Ok_iff; simpl.
    + split; [ | split; [unfold Corpus.len; lia | reflexivity] ].
      intros f Hf H2. apply (Hd f Hf), elem_of_app. left. exact H2.
    + unfold Corpus.len. simpl. rewrite length_zip_with.
      split; [ | split; [lia | ] ].
      * intros f [H1|H2]%elem_of_app H3; [ | exact (Hd23 f H2 H3) ].
        apply (Hd f H1), elem_of_app. right. exact H3.
      * rewrite <- app_assoc, zip_with_add_assoc. reflexivity.
Qed.

Lemma join_assoc_witness :
  exists joined,
    (c23 ← Corpus.join demo_answers demo_notes; Corpus.join demo_corpus c23)
    = Ok joined
    /\ fields joined = [py_str "question"; py_str "answer"; py_str "note"].
Proof.
  destruct (c12 ← Corpus.join demo_corpus demo_answers; Corpus.join c12 demo_notes)
    as [joined|] eqn:Hjoin; [ | vm_compute in Hjoin; discriminate ].
  exists joined. split.
  - apply (proj1 (join_assoc demo_corpus demo_answers demo_notes joined)).
    exact Hjoin.
  - vm_compute in Hjoin. injection Hjoin as <-. reflexivity.
Defined.

(* ===================================================================== *)
(** * More on loading a mapping                                           *)
(* ===================================================================== *)

Lemma for_each_Ok_fmap {A B} (f : A -> result B) (g : A -> B) (xs : list A)
    (ys : list B) :
  (forall x y, x ∈ xs -> f x = Ok y -> y = g x) ->
  for_each f xs = Ok ys -> ys = g <$> xs.
Proof.
  revert ys. induction xs as [|x xs IH]; intros ys Hfg; simpl.
  - intros [= <-]. reflexivity.
  - destruct (f x) as [y|] eqn:Hf; simpl; [ | discriminate ].
    destruct (for_each f xs) as [ys'|]; simpl; [ | discriminate ].
    intros [= <-]. change (g <$> x :: xs) with (g x :: (g <$> xs)). f_equal.
    + apply Hfg; [left | exact Hf].
    + apply IH; [ | reflexivity ]. intros x' y' Hx'. apply Hfg. right. exact Hx'.
Qed.

Lemma for_each_Ok_ex {A B} (f : A -> result B) (xs : list A) :
  (forall x, x ∈ xs -> exists y, f x = Ok y) ->
  exists ys, for_each f xs = Ok ys.
Proof.
  induction xs as [|x xs IH]; intros H; simpl.
  - exists []. reflexivity.
  - destruct (H x ltac:(left)) as [y Hy]. rewrite Hy. simpl.
    destruct IH as [ys Hys]; [intros x' Hx'; apply H; right; exact Hx' | ].
    rewrite Hys. simpl. eexists. reflexivity.
Qed.

Lemma for_each_Ok_Forall {A B} (f : A -> result B) (P : B -> Prop)
    (xs : list A) (ys : list B) :
  (forall x y, x ∈ xs -> f x = Ok y -> P y) ->
  for_each f xs = Ok ys -> Forall P ys.
Proof.
  revert ys. induction xs as [|x xs IH]; intros ys HP; simpl.
  - intros [= <-]. constructor.
  - destruct (f x) as [y|] eqn:Hf; simpl; [ | discriminate ].
    destruct (for_each f xs) as [ys'|]; simpl; [ | discriminate ].
    intros [= <-]. constructor.
    + apply (HP x); [left | exact Hf].
    + apply IH; [ | reflexivity ]. intros x' y' Hx'. apply HP. right. exact Hx'.
Qed.

(** The dictionary [{key: g(key) for key in ks}]. *)
Lemma dict_of_keyed_lookup (ks : list str) (g : str -> str) (key : pykey) :
  dict_of_items ((fun k => (Some k, g k)) <$> ks) !! key
  = match key with
    | Some k => if decide (k ∈ ks) then Some (g k) else None
    | None => None
    end.
Proof.
  unfold dict_of_items. rewrite foldl_insert_lookup, lookup_empty.
  induction ks as [|k0 ks IH] using rev_ind.
  - destruct key; reflexivity.
  - rewrite fmap_app, filter_app. simpl. rewrite filter_cons, filter_nil. simpl.
    destruct (decide (Some k0 = key)) as [<-|Hne].
    + rewrite last_snoc. simpl.
      rewrite decide_True; [reflexivity | ]. apply elem_of_app. right. left.
    + rewrite app_nil_r, IH. destruct key as [k|]; [ | reflexivity ].
      destruct (decide (k ∈ ks)) as [Hin|Hnin].
      * rewrite decide_True; [reflexivity | ]. apply elem_of_app. left. exact Hin.
      * rewrite decide_False; [reflexivity | ].
        intros [Hin|Hin]%elem_of_app; [exact (Hnin Hin) | ].
        apply list_elem_of_singleton in Hin. congruence.
Qed.

(** [select_fields] returns the record restricted to the keys, and only
    when the record has them all. *)
Lemma select_fields_Ok r ks m :
  MappingDefinition.select_fields r ks = Ok m ->
  m = restrict_to_keys ks (_field_values r)
  /\ forall k, k ∈ ks -> is_Some (_field_values r !! Some k).
Proof.
  unfold MappingDefinition.select_fields. intros H.
  apply bind_Ok in H as (items & Hitems & [= <-]).
  assert (Hall : forall k, k ∈ ks -> is_Some (_field_values r !! Some k)).
  { intros k Hk. apply list_elem_of_lookup in Hk as [i Hi].
    destruct (for_each_Ok_lookup _ _ _ _ _ Hitems Hi) as (y & _ & Hy).
    apply bind_Ok in Hy as (v & Hv & _). unfold Example.getitem in Hv.
    destruct (_field_values r !! Some k); [eexists; reflexivity | discriminate]. }
  split; [ | exact Hall ].
  assert (Heq : items = (fun k => (Some k, value_of (_field_values r) k)) <$> ks).
  { apply (for_each_Ok_fmap
             (fun key => v ← Example.getitem r key; Ok (Some key, v))); [ | exact Hitems ].
    intros k y _ Hy. apply bind_Ok in Hy as (v & Hv & [= <-]).
    unfold Example.getitem in Hv. unfold value_of.
    destruct (_field_values r !! Some k); [ | discriminate ].
    injection Hv as ->. reflexivity. }
  rewrite Heq. apply map_eq. intros key.
  rewrite dict_of_keyed_lookup, restrict_to_keys_lookup.
  destruct key as [k|]; [ | reflexivity ].
  destruct (decide (k ∈ ks)) as [Hk|]; [ | reflexivity ].
  destruct (Hall k Hk) as [v Hv]. unfold value_of. rewrite Hv. reflexivity.
Qed.

(** What [load_from_directory] has read when it returns a definition. *)
Lemma definition_load_Ok_inv dir d :
  MappingDefinition.load_from_directory dir = Ok d ->
  exists guidelines_text input_text output_text file,
    guidelines_txt dir = Some guidelines_text
    /\ input_template_txt dir = Some input_text
    /\ output_template_txt dir = Some output_text
    /\ Template.load input_text = Ok (input_template d)
    /\ Template.load output_text = Ok (output_template d)
    /\ size (set_of (keys (input_template d)) ∩ set_of (keys (output_template d)))
       <= 1
    /\ (examples_yaml dir = Some file
        \/ (examples_yaml dir = None /\ examples_tsv dir = Some file))
    /\ MappingDefinition._load_examples_from_file file
         (keys (input_template d)) (keys (output_template d))
       = Ok (examples d)
    /\ guidelines d = Py.strip guidelines_text
    /\ source_dir_path d = Some (dir_path dir).
Proof.
  unfold MappingDefinition.load_from_directory. intros H.
  apply bind_Ok in H as (g & Hg & H).
  apply bind_Ok in H as (it & Hit & H).
  apply bind_Ok in H as (ti & Hti & H).
  apply bind_Ok in H as (ot & Hot & H).
  apply bind_Ok in H as (to & Hto & H).
  destruct (1 <? size (set_of (keys ti) ∩ set_of (keys to))) eqn:Hsize;
    [discriminate | ].
  apply Nat.ltb_ge in Hsize.
  apply bind_Ok in H as (exs & Hexs & [= <-]). simpl.
  unfold MappingDefinition.read_file in Hg, Hit, Hot.
  destruct (guidelines_txt dir) as [g'|]; [ | discriminate ].
  destruct (input_template_txt dir) as [it'|]; [ | discriminate ].
  destruct (output_template_txt dir) as [ot'|]; [ | discriminate ].
  injection Hg as ->. injection Hit as ->. injection Hot as ->.
  destruct (examples_yaml dir) as [file|] eqn:Hyaml.
  - exists g, it, ot, file. repeat split; try assumption. left. reflexivity.
  - destruct (examples_tsv dir) as [file|] eqn:Htsv; [ | discriminate ].
    exists g, it, ot, file. repeat split; try assumption. right. split; reflexivity.
Qed.

(** *** X15
    A loaded definition has one example for each record of its examples
    file, the structured file if there is one, else the tabular one.  The
    inputs of an example are the record restricted to the keys of the
    input template, its outputs the record restricted to the keys of the
    output template, and the record has all these keys. *)
Theorem definition_examples_split (dir : Directory)
    (d : TextCompletionsMappingDefinition) :
  MappingDefinition.load_from_directory dir = Ok d ->
  exists file,
    (examples_yaml dir = Some file
     \/ (examples_yaml dir = None /\ examples_tsv dir = Some file))
    /\ examples d
       = example_of_record (keys (input_template d)) (keys (output_template d))
           <$> _examples file
    /\ forall r k,
         r ∈ _examples file ->
         k ∈ keys (input_template d) ++ keys (output_template d) ->
         is_Some (_field_values r !! Some k).
Proof.
  intros Hload.
  destruct (definition_load_Ok_inv _ _ Hload)
    as (g & it & ot & file & _ & _ & _ & _ & _ & _ & Hfile & Hexs & _).
  exists file. split; [exact Hfile | ].
  unfold MappingDefinition._load_examples_from_file in Hexs. split.
  - apply (for_each_Ok_fmap
             (fun corpus_example =>
                ins ← MappingDefinition.select_fields corpus_example
                        (keys (input_template d));
                outs ← MappingDefinition.select_fields corpus_example
                         (keys (output_template d));
                Ok {| inputs := ins; outputs := outs |}));
      [ | exact Hexs ].
    intros r ex _ Hex.
    apply bind_Ok in Hex as (ins & Hins & Hex).
    apply bind_Ok in Hex as (outs & Houts & [= <-]).
    apply select_fields_Ok in Hins as [-> _].
    apply select_fields_Ok in Houts as [-> _]. reflexivity.
  - intros r k Hr Hk. apply list_elem_of_lookup in Hr as [i Hi].
    destruct (for_each_Ok_lookup _ _ _ _ _ Hexs Hi) as (ex & _ & Hex).
    apply bind_Ok in Hex as (ins & Hins & Hex).
    apply bind_Ok in Hex as (outs & Houts & _).
    apply select_fields_Ok in Hins as [_ Hins].
    apply select_fields_Ok in Houts as [_ Houts].
    apply elem_of_app in Hk as [Hk|Hk]; [apply Hins | apply Houts]; exact Hk.
Qed.

Lemma definition_examples_split_witness :
  exists d,
    MappingDefinition.load_from_directory (demo_directory "{a} {b}" "{c}") = Ok d
    /\ length (examples d) = 1.
Proof.
  destruct (MappingDefinition.load_from_directory (demo_directory "{a} {b}" "{c}"))
    as [d|] eqn:Hload; [ | vm_compute in Hload; discriminate ].
  exists d. split; [reflexivity | ].
  destruct (definition_examples_split _ d Hload) as (file & Hfile & Hexs & _).
  destruct Hfile as [Hyaml | [_ Htsv]]; [discriminate | ].
  injection Htsv as <-. rewrite Hexs. reflexivity.
Defined.

Lemma restrict_to_keys_provides (ks : list str) (values : pydict) (k : str) :
  k ∈ ks -> is_Some (values !! Some k) ->
  is_Some (restrict_to_keys ks values !! Some k).
Proof.
  intros Hk Hv. rewrite restrict_to_keys_lookup, decide_True by exact Hk.
  exact Hv.
Qed.

Lemma concat_turn_roles (turns : list ChatGPTPrompt) :
  Forall (fun turn => fst <$> turn = [USER; ASSISTANT]) turns ->
  fst <$> concat turns = concat (replicate (length turns) [USER; ASSISTANT]).
Proof.
  induction 1 as [|turn turns Hturn _ IH]; [reflexivity | ].
  simpl. rewrite fmap_app, Hturn, IH. reflexivity.
Qed.

(** *** X16
    Building the mapping from a directory fails only where loading the
    definition fails: once the definition is loaded every worked example
    fills both templates.  The prompt prefix then starts with the
    guidelines as the system turn, followed by a user turn and an
    assistant turn for each example, so it is never empty. *)
Theorem mapping_load_from_directory (client : ChatGPTTextCompletionsClient)
    (dir : Directory) :
  (forall e, MappingDefinition.load_from_directory dir = Raise e ->
     Mapping.load_from_directory client dir = Raise e)
  /\ (forall d, MappingDefinition.load_from_directory dir = Ok d ->
        exists prefix,
          Mapping.load_from_directory client dir
          = Ok {| definition := d; gpt_client := client; prompt_prefix := prefix |}
          /\ head prefix = Some (SYSTEM, guidelines d)
          /\ fst <$> prefix
             = SYSTEM :: concat (replicate (length (examples d)) [USER; ASSISTANT])).
Proof.
  unfold Mapping.load_from_directory. split.
  - intros e ->. reflexivity.
  - intros d Hload. rewrite Hload. simpl.
    destruct (definition_load_Ok_inv _ _ Hload)
      as (g & it & ot & file & _ & _ & _ & _ & _ & _ & _ & Hexs & _).
    unfold MappingDefinition._load_examples_from_file in Hexs.
    assert (Hprovided : forall ex, ex ∈ examples d ->
               (forall k, k ∈ keys (input_template d) ->
                          is_Some (inputs ex !! Some k))
               /\ (forall k, k ∈ keys (output_template d) ->
                             is_Some (outputs ex !! Some k))).
    { apply Forall_forall.
      refine (for_each_Ok_Forall _ _ _ _ _ Hexs).
      intros r ex _ Hex.
      apply bind_Ok in Hex as (ins & Hins & Hex).
      apply bind_Ok in Hex as (outs & Houts & [= <-]). simpl.
      apply select_fields_Ok in Hins as [-> Hins].
      apply select_fields_Ok in Houts as [-> Houts].
      split; intros k Hk; apply restrict_to_keys_provides; auto. }
    unfold Mapping._load_gpt_prompt_prefix.
    destruct (for_each_Ok_ex
                (fun example =>
                   user_turn ← Template.fill (input_template d) (inputs example);
                   assistant_turn ← Template.fill (output_template d)
                                      (outputs example);
                   Ok [ (USER, user_turn); (ASSISTANT, assistant_turn) ])
                (examples d)) as [turns Hturns].
    { intros ex Hex. destruct (Hprovided ex Hex) as [Hin Hout].
      destruct (fill_loop_Ok (raw (input_template d)) _ _
                  (raw (input_template d)) Hin) as [u Hu].
      destruct (fill_loop_Ok (raw (output_template d)) _ _
                  (raw (output_template d)) Hout) as [a Ha].
      unfold Template.fill. rewrite Hu. simpl. rewrite Ha. simpl.
      eexists. reflexivity. }
    rewrite Hturns. simpl. eexists. split; [reflexivity | ].
    split; [reflexivity | ]. rewrite fmap_cons. cbn [fst]. f_equal.
    rewrite <- (for_each_Ok_length _ _ _ Hturns).
    apply concat_turn_roles.
    refine (for_each_Ok_Forall _ _ _ _ _ Hturns).
    intros ex turn _ Hturn.
    apply bind_Ok in Hturn as (u & _ & Hturn).
    apply bind_Ok in Hturn as (a & _ & [= <-]). reflexivity.
Qed.

Lemma mapping_load_from_directory_witness :
  exists prefix,
    (m ← Mapping.load_from_directory (constant_client "ok")
           (demo_directory "{a} {b}" "{c}");
     Ok (prompt_prefix m)) = Ok prefix
    /\ fst <$> prefix = [SYSTEM; USER; ASSISTANT].
Proof.
  destruct (MappingDefinition.load_from_directory (demo_directory "{a} {b}" "{c}"))
    as [d|] eqn:Hload; [ | vm_compute in Hload; discriminate ].
  destruct (proj2 (mapping_load_from_directory (constant_client "ok")
                     (demo_directory "{a} {b}" "{c}")) d Hload)
    as (prefix & Hmapping & _ & Hroles).
  exists prefix. rewrite Hmapping. split; [reflexivity | ].
  rewrite Hroles. vm_compute in Hload. injection Hload as <-. reflexivity.
Defined.

(* ===================================================================== *)
(** * More on the mapping engine                                          *)
(* ===================================================================== *)

Lemma for_each_Raise_first {A B} (f : A -> result B) (xs : list A)
    (e : exception) :
  for_each f xs = Raise e
  <-> exists i x,
        xs !! i = Some x /\ f x = Raise e
        /\ forall j y, j < i -> xs !! j = Some y -> is_Ok (f y) = true.
Proof.
  induction xs as [|x0 xs IH]; simpl.
  - split; [discriminate | intros (i & x & H & _); discriminate].
  - destruct (f x0) as [y0|e0] eqn:Hf0; simpl.
    + assert (Hshift :
        (exists i x, (x0 :: xs) !! i = Some x /\ f x = Raise e
           /\ forall j y, j < i -> (x0 :: xs) !! j = Some y -> is_Ok (f y) = true)
        <-> exists i x, xs !! i = Some x /\ f x = Raise e
              /\ forall j y, j < i -> xs !! j = Some y -> is_Ok (f y) = true).
      { split.
        - intros (i & x & Hi & Hx & Hbefore). destruct i as [|i].
          + simpl in Hi. injection Hi as <-. congruence.
          + exists i, x. repeat split; [exact Hi | exact Hx | ].
            intros j y Hj Hy. apply (Hbefore (S j) y); [lia | exact Hy].
        - intros (i & x & Hi & Hx & Hbefore).
          exists (S i), x. repeat split; [exact Hi | exact Hx | ].
          intros [|j] y Hj Hy.
          + simpl in Hy. injection Hy as <-. rewrite Hf0. reflexivity.
          + apply (Hbefore j y); [lia | exact Hy]. }
      rewrite Hshift, <- IH.
      destruct (for_each f xs) as [ys|e1]; simpl.
      * split; discriminate.
      * split; intros [= ->]; reflexivity.
    + split.
      * intros [= ->]. exists 0, x0. repeat split; [exact Hf0 | ]. intros j y Hj. lia.
      * intros (i & x & Hi & Hx & Hbefore). destruct i as [|i].
        -- simpl in Hi. injection Hi as <-. congruence.
        -- specialize (Hbefore 0 x0 ltac:(lia) eq_refl). rewrite Hf0 in Hbefore.
           discriminate.
Qed.

(** *** X17
    [map_batch] maps the records in order, the record at position [i]
    with the call numbered [first_call + i]: it returns one outcome for each
    record, or raises what [map] raises for the first record for which it
    raises anything, the records before it having been mapped. *)
Theorem map_batch_in_order (self : ChatGPTTextCompletionsMapping)
    (first_call : nat) (inputs : list SchematizedTextCorpusExample)
    (default : option str) :
  (forall outputs,
     Mapping.map_batch self first_call inputs default = Ok outputs ->
     length outputs = length inputs
     /\ forall i input, inputs !! i = Some input ->
          exists output,
            outputs !! i = Some output
            /\ Mapping.map self (first_call + i) (_field_values input) default
               = Ok output)
  /\ (forall e,
        Mapping.map_batch self first_call inputs default = Raise e
        <-> exists i input,
              inputs !! i = Some input
              /\ Mapping.map self (first_call + i) (_field_values input) default
                 = Raise e
              /\ forall j input', j < i -> inputs !! j = Some input' ->
                   is_Ok (Mapping.map self (first_call + j)
                            (_field_values input') default) = true).
Proof.
  split.
  - intros outputs Hbatch. split.
    + pose proof (for_each_Ok_length _ _ _ Hbatch) as Hlen.
      unfold enumerate in Hlen. rewrite length_imap in Hlen. exact Hlen.
    + intros i input Hi. exact (map_batch_Ok_lookup _ _ _ _ _ _ _ Hbatch Hi).
  - intros e. unfold Mapping.map_batch. rewrite for_each_Raise_first. split.
    + intros (i & [i' input] & Hi & Hmap & Hbefore).
      unfold enumerate in Hi. rewrite list_lookup_imap in Hi.
      destruct (inputs !! i) as [x|] eqn:Hx; simpl in Hi; [ | discriminate ].
      injection Hi as <- <-.
      exists i, x. split; [exact Hx | split; [exact Hmap | ] ].
      intros j input' Hj Hin'.
      apply (Hbefore j (j, input') Hj). apply enumerate_lookup, Hin'.
    + intros (i & input & Hi & Hmap & Hbefore).
      exists i, (i, input). repeat split; [apply enumerate_lookup, Hi | exact Hmap | ].
      intros j [j' input'] Hj Hin'.
      unfold enumerate in Hin'. rewrite list_lookup_imap in Hin'.
      destruct (inputs !! j) as [x|] eqn:Hx; simpl in Hin'; [ | discriminate ].
      injection Hin' as <- <-. apply (Hbefore j x Hj Hx).
Qed.

Lemma map_batch_in_order_witness :
  (exists outputs,
     Mapping.map_batch (demo_mapping "A: 4") 7 (_examples demo_corpus) None
     = Ok outputs
     /\ length outputs = 1)
  /\ Mapping.map_batch (demo_mapping "four") 7 (_examples demo_corpus) None
     = Raise (ValueError (py_str "Expected 'A: ' at start of text 'four'.")).
Proof.
  split.
  - destruct (Mapping.map_batch (demo_mapping "A: 4") 7 (_examples demo_corpus) None)
      as [outputs|] eqn:Hbatch; [ | vm_compute in Hbatch; discriminate ].
    exists outputs. split; [reflexivity | ].
    apply (proj1 (map_batch_in_order (demo_mapping "A: 4") 7
                    (_examples demo_corpus) None) outputs Hbatch).
  - apply (proj2 (map_batch_in_order (demo_mapping "four") 7
                    (_examples demo_corpus) None)).
    exists 0, (Corpus_first demo_corpus).
    split; [reflexivity | ]. split; [vm_compute; reflexivity | ].
    intros j input' Hj. lia.
Defined.

(** *** X18
    What [map] can raise, for a mapping whose output template has a part
    and whose prompt prefix has a message: the error of filling the input
    template, the error of the collaborator, and, only when no default is
    given, the error of parsing the completion.  With a default it returns
    an outcome whenever the input fills and the collaborator answers. *)
Theorem map_raises_exactly (self : ChatGPTTextCompletionsMapping) (call : nat)
    (input : pydict) (default : option str) (e : exception) :
  parts (output_template (definition self)) <> [] ->
  prompt_prefix self <> [] ->
  Mapping.map self call input default = Raise e
  <-> Template.fill (input_template (definition self)) input = Raise e
      \/ exists message,
           Template.fill (input_template (definition self)) input = Ok message
           /\ (gpt_client self call
                 (Mapping.prompt_add (prompt_prefix self) (USER, message))
               = Raise e
               \/ exists completion,
                    gpt_client self call
                      (Mapping.prompt_add (prompt_prefix self) (USER, message))
                    = Ok completion
                    /\ default = None
                    /\ Template.parse (output_template (definition self))
                         completion = Raise e).
Proof.
  intros Hparts Hprefix. unfold Mapping.map.
  destruct (Template.fill (input_template (definition self)) input)
    as [message|e0]; simpl.
  2:{ split.
      - intros [= ->]. left. reflexivity.
      - intros [[= ->] | (m & [=] & _)]. reflexivity. }
  destruct (gpt_client self call
              (Mapping.prompt_add (prompt_prefix self) (USER, message)))
    as [completion|e1] eqn:Hrun; simpl.
  2:{ split.
      - intros [= ->]. right. exists message. split; [reflexivity | ].
        left. exact Hrun.
      - intros [[=] | (m & [= <-] & [H | (c & H & _)])];
          rewrite Hrun in H; congruence. }
  destruct (prompt_prefix self) as [|m0 prefix] eqn:Hpre; [congruence | ]. simpl.
  destruct (Template.parse (output_template (definition self)) completion)
    as [fields_parsed|e2] eqn:Hparse.
  - split; [discriminate | ].
    intros [[=] | (m & [= <-] & [H | (c & H & _ & H')])];
      rewrite Hrun in H; [discriminate | ].
    injection H as <-. congruence.
  - destruct (parse_Raise _ _ _ Hparts Hparse) as [msg ->].
    destruct default as [default|].
    + split; [discriminate | ].
      intros [[=] | (m & [= <-] & [H | (c & H & Hd & _)])];
        [rewrite Hrun in H | ]; discriminate.
    + split.
      * intros [= <-]. right. exists message. split; [reflexivity | ].
        right. exists completion.
        split; [exact Hrun | split; [reflexivity | exact Hparse] ].
      * intros [[=] | (m & [= <-] & [H | (c & H & _ & H')])];
          rewrite Hrun in H; [discriminate | ].
        injection H as <-. congruence.
Qed.

Lemma map_raises_exactly_witness :
  Mapping.map (demo_mapping "four") 0 ∅ (Some (py_str "?"))
  = Raise (ValueError
             (py_str "Key question missing from dictionary for template 'Q: {question}'")).
Proof.
  apply (proj2 (map_raises_exactly (demo_mapping "four") 0 ∅ (Some (py_str "?")) _
                  ltac:(vm_compute; discriminate) ltac:(vm_compute; discriminate))).
  left. vm_compute. reflexivity.
Defined.

(** *** X19
    With the debug fields requested, [map_corpus] raises the validation
    error when the name of a debug field is a key of the input template or
    of the output template, whatever the record set, the default and the
    collaborator are: no record is mapped. *)
Theorem map_corpus_debug_name_collision (self : ChatGPTTextCompletionsMapping)
    (first_call : nat) (corpus : SchematizedTextCorpus) (default : option str)
    (include_inputs_in_output : bool) (err_f succ_f raw_f name : str) :
  name ∈ [err_f; succ_f; raw_f] ->
  name ∈ keys (input_template (definition self))
         ++ keys (output_template (definition self)) ->
  Mapping.map_corpus self first_call corpus default include_inputs_in_output
    true err_f succ_f raw_f
  = Raise (ValueError Mapping.debug_field_message).
Proof.
  intros Hname Hkey. unfold Mapping.map_corpus.
  assert (Hextra : name ∈ ({[ err_f; succ_f; raw_f ]} : gset str)).
  { apply elem_of_cons in Hname as [->|Hname]; [set_solver | ].
    apply elem_of_cons in Hname as [->|Hname]; [set_solver | ].
    apply list_elem_of_singleton in Hname as ->. set_solver. }
  assert (Hpos : forall ks : list str, name ∈ ks ->
             (0 <? size (({[ err_f; succ_f; raw_f ]} : gset str) ∩ set_of ks))
             = true).
  { intros ks Hks. apply Nat.ltb_lt.
    assert (Hne : ({[ err_f; succ_f; raw_f ]} : gset str) ∩ set_of ks ≢ ∅).
    { intros Hempty. apply (not_elem_of_empty (C := gset str) name).
      rewrite <- Hempty. apply elem_of_intersection. split; [exact Hextra | ].
      unfold set_of. apply elem_of_list_to_set, Hks. }
    apply size_non_empty_iff in Hne. lia. }
  apply elem_of_app in Hkey as [Hin|Hout].
  - rewrite (Hpos _ Hin). reflexivity.
  - rewrite (Hpos _ Hout), orb_true_r. reflexivity.
Qed.

Lemma map_corpus_debug_name_collision_witness :
  Mapping.map_corpus (demo_mapping "A: 4") 0 demo_corpus None true true
    default_error_message_field default_success_field (py_str "answer")
  = Raise (ValueError Mapping.debug_field_message).
Proof.
  apply (map_corpus_debug_name_collision (demo_mapping "A: 4") 0 demo_corpus None
           true default_error_message_field default_success_field
           (py_str "answer") (py_str "answer")).
  - right. right. left.
  - right. left.
Defined.

(** What [map_corpus] returns when it returns a record set. *)
Lemma map_corpus_Ok_inv self first_call corpus default include_inputs
    include_debug err_f succ_f raw_f mapped :
  Mapping.map_corpus self first_call corpus default include_inputs include_debug
    err_f succ_f raw_f = Ok mapped ->
  exists outputs,
    Mapping.map_batch self first_call (_examples corpus) default = Ok outputs
    /\ let output_corpus :=
         {| fields :=
              keys (output_template (definition self))
                ++ (if include_debug then [succ_f; err_f; raw_f] else []);
            _examples :=
              Mapping.output_example include_debug err_f succ_f raw_f
                <$> outputs |} in
       if include_inputs
       then Corpus.join corpus output_corpus = Ok mapped
       else mapped = output_corpus.
Proof.
  unfold Mapping.map_corpus.
  destruct (include_debug && _); [discriminate | ].
  destruct (Mapping.map_batch self first_call (_examples corpus) default)
    as [outputs|]; [ | discriminate ].
  simpl. intros H. exists outputs. split; [reflexivity | ].
  destruct include_debug, include_inputs; simpl;
    rewrite ?app_nil_r; try exact H; injection H as <-; reflexivity.
Qed.

(** *** X20
    When [map_corpus] returns a record set it has a record for each
    record mapped.  Its fields are the keys of the output template, then
    the three debug fields if requested, after the fields of the input
    record set if the inputs are included; its record at each position is
    the record made of the outcome at that position, concatenated to the
    input record if the inputs are included. *)
Theorem map_corpus_result_shape (self : ChatGPTTextCompletionsMapping)
    (first_call : nat) (corpus : SchematizedTextCorpus) (default : option str)
    (include_inputs include_debug : bool) (err_f succ_f raw_f : str)
    (mapped : SchematizedTextCorpus) :
  Mapping.map_corpus self first_call corpus default include_inputs include_debug
    err_f succ_f raw_f = Ok mapped ->
  exists outputs,
    Mapping.map_batch self first_call (_examples corpus) default = Ok outputs
    /\ length outputs = Corpus.len corpus
    /\ fields mapped
       = (if include_inputs then fields corpus else [])
           ++ keys (output_template (definition self))
           ++ (if include_debug then [succ_f; err_f; raw_f] else [])
    /\ _examples mapped
       = (if include_inputs
          then zip_with Example.add (_examples corpus)
          else fun records => records)
           (Mapping.output_example include_debug err_f succ_f raw_f <$> outputs).
Proof.
  intros H. destruct (map_corpus_Ok_inv _ _ _ _ _ _ _ _ _ _ H)
    as (outputs & Hbatch & Hshape).
  exists outputs. split; [exact Hbatch | ].
  pose proof (for_each_Ok_length _ _ _ Hbatch) as Hlen.
  unfold enumerate in Hlen. rewrite length_imap in Hlen.
  split; [exact Hlen | ]. simpl in Hshape.
  destruct include_inputs.
  - apply join_Ok_iff in Hshape as (_ & _ & ->). split; reflexivity.
  - subst mapped. split; reflexivity.
Qed.

Lemma map_corpus_result_shape_witness :
  exists mapped,
    Mapping.map_corpus (demo_mapping "A: 4") 0 demo_corpus None true false
      default_error_message_field default_success_field
      default_raw_completion_field = Ok mapped
    /\ fields mapped = [py_str "question"; py_str "answer"].
Proof.
  destruct (Mapping.map_corpus (demo_mapping "A: 4") 0 demo_corpus None true false
              default_error_message_field default_success_field
              default_raw_completion_field) as [mapped|] eqn:Hmapped;
    [ | vm_compute in Hmapped; discriminate ].
  exists mapped. split; [reflexivity | ].
  destruct (map_corpus_result_shape _ _ _ _ _ _ _ _ _ mapped Hmapped)
    as (outputs & _ & _ & Hfields & _).
  rewrite Hfields. reflexivity.
Defined.

(** *** X21
    With the inputs included, [map_corpus] never returns a record set
    when a field of the input record set is also a key of the output
    template, or the name of a requested debug field: the join at the end
    refuses the common field, after every record has been mapped.  A
    definition whose two templates share a key, which loading allows,
    cannot be run this way on a record set that has the shared key as a
    field. *)
Theorem map_corpus_inputs_shared_field (self : ChatGPTTextCompletionsMapping)
    (first_call : nat) (corpus : SchematizedTextCorpus) (default : option str)
    (include_debug : bool) (err_f succ_f raw_f f : str) :
  f ∈ fields corpus ->
  f ∈ keys (output_template (definition self))
        ++ (if include_debug then [succ_f; err_f; raw_f] else []) ->
  (forall mapped,
     Mapping.map_corpus self first_call corpus default true include_debug
       err_f succ_f raw_f <> Ok mapped)
  /\ (forall outputs,
        Mapping.map_batch self first_call (_examples corpus) default = Ok outputs ->
        Mapping.map_corpus self first_call corpus default true include_debug
          err_f succ_f raw_f
        = Raise (ValueError Mapping.debug_field_message)
        \/ Mapping.map_corpus self first_call corpus default true include_debug
             err_f succ_f raw_f
           = Raise (ValueError Corpus.common_fields_message)).
Proof.
  intros Hf Hout. split.
  - intros mapped H. destruct (map_corpus_Ok_inv _ _ _ _ _ _ _ _ _ _ H)
      as (outputs & _ & Hjoin).
    simpl in Hjoin. apply join_Ok_iff in Hjoin as (Hdisj & _).
    exact (Hdisj f Hf Hout).
  - intros outputs Hbatch. unfold Mapping.map_corpus.
    destruct (include_debug && _); [left; reflexivity | right ].
    rewrite Hbatch. simpl. unfold Corpus.join.
    assert (Hcommon : (0 <? size (set_of (fields corpus)
               ∩ set_of (fields {| fields :=
                    if include_debug
                    then keys (output_template (definition self))
                           ++ [succ_f; err_f; raw_f]
                    else keys (output_template (definition self));
                  _examples := Mapping.output_example include_debug err_f succ_f
                                 raw_f <$> outputs |}))) = true).
    { apply Nat.ltb_lt, set_of_common. exists f. split; [exact Hf | ]. simpl.
      destruct include_debug; [exact Hout | ].
      rewrite app_nil_r in Hout. exact Hout. }
    simpl in Hcommon |- *. rewrite Hcommon. reflexivity.
Qed.

Lemma map_corpus_inputs_shared_field_witness :
  Mapping.map_corpus (demo_mapping "A: 4") 0 demo_answered None true false
    default_error_message_field default_success_field
    default_raw_completion_field
  = Raise (ValueError Corpus.common_fields_message).
Proof.
  destruct (Mapping.map_batch (demo_mapping "A: 4") 0 (_examples demo_answered) None)
    as [outputs|] eqn:Hbatch; [ | vm_compute in Hbatch; discriminate ].
  destruct (proj2 (map_corpus_inputs_shared_field (demo_mapping "A: 4") 0
                     demo_answered None false default_error_message_field
                     default_success_field default_raw_completion_field
                     (py_str "answer")
                     ltac:(right; left) ltac:(left))
              outputs Hbatch) as [H|H].
  - vm_compute in H. discriminate.
  - exact H.
Defined.

